(** * The live voice session of src/App.tsx

    A shallow embedding of the session path of [App]: the message handler
    [handleMessage], [startSession] and [stopSession], over the React state
    and the refs the component keeps.  Every [await] of [handleMessage] is
    a suspension point: the part of the handler before it runs to
    completion, the rest is parked as a [Task] and resumed by a later
    event of the browser's event loop.

    Clock values are counted in sample frames of the output context
    (24000 per second): [ctx.currentTime] and [buffer.duration] are whole
    numbers of frames over that rate, so the arithmetic on them is the
    arithmetic of [Z]. *)

From Stdlib Require Import ZArith Lia.
From stdpp Require Import gmap strings list fin_maps pretty.

(** ** Completion of a JavaScript computation *)

(** A call or an awaited promise either yields a value or throws. *)
Inductive Completion (A : Type) : Type :=
  | Normal (a : A)
  | Throw.
Arguments Normal {A} a.
Arguments Throw {A}.

(** [x || d] on an optional string: [undefined] and the empty string are
    falsy. *)
Definition orDefault (x : option string) (d : string) : string :=
  match x with
  | Some s => if String.eqb s EmptyString then d else s
  | None => d
  end.

(** Truthiness of an optional string. *)
Definition truthy (x : option string) : bool :=
  match x with
  | Some s => negb (String.eqb s EmptyString)
  | None => false
  end.

(** ** types.ts *)

Record CodeSnippet := mkCodeSnippet {
  cs_id : string;
  cs_language : string;
  cs_code : string;
  cs_description : string;
  cs_timestamp : Z
}.

Inductive View := ViewCode | ViewPreview | ViewAssistant | ViewStudio.

(** [AppState & { liveUserText, liveAiText }], the fields the session path
    reads or writes.  [chatHistory], [selectedImage], [useThinking] and
    [useGrounding] belong to the chat panel and are never touched here. *)
Record AppState := mkAppState {
  isListening : bool;
  isProcessing : bool;
  currentCode : string;
  currentDescription : string;
  history : list CodeSnippet;
  error : option string;
  liveUserText : string;
  liveAiText : string;
  view : View
}.

(** The argument of [useState] at lines 34-48. *)
Definition initialState : AppState :=
  {| isListening := false; isProcessing := false;
     currentCode := EmptyString; currentDescription := EmptyString;
     history := []; error := None;
     liveUserText := EmptyString; liveAiText := EmptyString;
     view := ViewCode |}.

(** ** Messages of the live endpoint

    The shapes of [LiveServerMessage] as the handler reads them; every
    property of the SDK's types is optional. *)

Record Blob := mkBlob { data : option string }.
Record Part := mkPart { inlineData : option Blob }.
Record Content := mkContent { parts : option (list Part) }.
Record Transcription := mkTranscription { text : option string }.

Record LiveServerContent := mkServerContent {
  modelTurn : option Content;
  inputTranscription : option Transcription;
  outputTranscription : option Transcription
}.

(** [fc.args as { description: string; language: string }]. *)
Record Args := mkArgs { description : string; language : string }.

Record FunctionCall := mkFunctionCall {
  fc_id : option string;
  fc_name : option string;
  fc_args : option Args
}.

Record LiveServerToolCall := mkToolCall {
  functionCalls : option (list FunctionCall)
}.

Record LiveServerMessage := mkMessage {
  serverContent : option LiveServerContent;
  toolCall : option LiveServerToolCall
}.

(** What [decodeAudioData] resolves to: an [AudioBuffer] of [frames]
    sample frames at the rate of the output context. *)
Record AudioBuffer := mkAudioBuffer { frames : N }.

Definition duration (b : AudioBuffer) : Z := Z.of_N (frames b).

(** The response of the one-shot generation call. *)
Record GenerateContentResponse := mkResponse { responseText : option string }.

(** The request of lines 87-91. *)
Record GenerateRequest := mkRequest {
  req_model : string;
  req_thinkingBudget : Z;
  req_contents : string
}.

(** One entry of [functionResponses] at line 107. *)
Record FunctionResponse := mkFunctionResponse {
  fr_id : option string;
  fr_name : option string;
  fr_result : string
}.

(** ** Effects on the browser and the SDK, in the order they are made *)

Inductive Effect :=
  | SourceStart (source ctx : nat) (when dur : Z)
  | GenerateContent (req : GenerateRequest)
  | SendToolResponse (session : nat) (resp : FunctionResponse)
  | SendRealtimeInput (session : nat) (media : string)
  | Connect (session : nat)
  | ProcessorDisconnect (processor : nat)
  | TracksStop (stream : nat)
  | ContextClose (ctx : nat).

(** ** Suspended handlers

    The continuation of one [handleMessage] call at each of its awaits,
    with the locals that are live there. *)
Inductive Task :=
  | AwaitDecode (message : LiveServerMessage) (ctx : nat)
  | AwaitGenerate (fc : FunctionCall) (a : Args) (rest : list FunctionCall)
  | AwaitSession (fc : FunctionCall) (rest : list FunctionCall) (session : nat).

(** The promise returned by [ai.live.connect]. *)
Inductive PromiseState := Pending | Resolved | Rejected.

(** ** The component and its surroundings *)

Record World := mkWorld {
  (* React state *)
  app : AppState;
  (* refs, lines 50-56 *)
  audioContextRef : option nat;
  outAudioContextRef : option nat;
  sessionPromiseRef : option nat;
  nextStartTimeRef : Z;
  sourcesRef : gset nat;
  streamRef : option nat;
  scriptProcessorRef : option nat;
  (* the surroundings *)
  sessions : gmap nat PromiseState;
  processors : gmap nat nat;
  tasks : gmap nat Task;
  trace : list Effect;
  fresh : nat
}.

Definition initialWorld : World :=
  {| app := initialState;
     audioContextRef := None; outAudioContextRef := None;
     sessionPromiseRef := None; nextStartTimeRef := 0%Z;
     sourcesRef := ∅; streamRef := None; scriptProcessorRef := None;
     sessions := ∅; processors := ∅; tasks := ∅; trace := []; fresh := 0 |}.

(** *** Updates *)

Definition setState (f : AppState -> AppState) (w : World) : World :=
  mkWorld (f (app w)) (audioContextRef w) (outAudioContextRef w)
    (sessionPromiseRef w) (nextStartTimeRef w) (sourcesRef w) (streamRef w)
    (scriptProcessorRef w) (sessions w) (processors w) (tasks w) (trace w)
    (fresh w).

Definition set_nextStartTime (t : Z) (w : World) : World :=
  mkWorld (app w) (audioContextRef w) (outAudioContextRef w)
    (sessionPromiseRef w) t (sourcesRef w) (streamRef w)
    (scriptProcessorRef w) (sessions w) (processors w) (tasks w) (trace w)
    (fresh w).

Definition add_source (s : nat) (w : World) : World :=
  mkWorld (app w) (audioContextRef w) (outAudioContextRef w)
    (sessionPromiseRef w) (nextStartTimeRef w) ({[s]} ∪ sourcesRef w)
    (streamRef w) (scriptProcessorRef w) (sessions w) (processors w)
    (tasks w) (trace w) (fresh w).

Definition set_stream (s : nat) (w : World) : World :=
  mkWorld (app w) (audioContextRef w) (outAudioContextRef w)
    (sessionPromiseRef w) (nextStartTimeRef w) (sourcesRef w) (Some s)
    (scriptProcessorRef w) (sessions w) (processors w) (tasks w) (trace w)
    (fresh w).

Definition set_contexts (inCtx outCtx : nat) (w : World) : World :=
  mkWorld (app w) (Some inCtx) (Some outCtx)
    (sessionPromiseRef w) (nextStartTimeRef w) (sourcesRef w) (streamRef w)
    (scriptProcessorRef w) (sessions w) (processors w) (tasks w) (trace w)
    (fresh w).

Definition set_sessionPromise (s : nat) (w : World) : World :=
  mkWorld (app w) (audioContextRef w) (outAudioContextRef w)
    (Some s) (nextStartTimeRef w) (sourcesRef w) (streamRef w)
    (scriptProcessorRef w) (sessions w) (processors w) (tasks w) (trace w)
    (fresh w).

Definition set_scriptProcessor (p : nat) (w : World) : World :=
  mkWorld (app w) (audioContextRef w) (outAudioContextRef w)
    (sessionPromiseRef w) (nextStartTimeRef w) (sourcesRef w) (streamRef w)
    (Some p) (sessions w) (processors w) (tasks w) (trace w) (fresh w).

Definition set_session (s : nat) (p : PromiseState) (w : World) : World :=
  mkWorld (app w) (audioContextRef w) (outAudioContextRef w)
    (sessionPromiseRef w) (nextStartTimeRef w) (sourcesRef w) (streamRef w)
    (scriptProcessorRef w) (<[s := p]> (sessions w)) (processors w)
    (tasks w) (trace w) (fresh w).

Definition set_processors (ps : gmap nat nat) (w : World) : World :=
  mkWorld (app w) (audioContextRef w) (outAudioContextRef w)
    (sessionPromiseRef w) (nextStartTimeRef w) (sourcesRef w) (streamRef w)
    (scriptProcessorRef w) (sessions w) ps (tasks w) (trace w) (fresh w).

Definition set_tasks (ts : gmap nat Task) (w : World) : World :=
  mkWorld (app w) (audioContextRef w) (outAudioContextRef w)
    (sessionPromiseRef w) (nextStartTimeRef w) (sourcesRef w) (streamRef w)
    (scriptProcessorRef w) (sessions w) (processors w) ts (trace w)
    (fresh w).

(** Perform an effect: it goes to the end of the trace. *)
Definition emit (e : Effect) (w : World) : World :=
  mkWorld (app w) (audioContextRef w) (outAudioContextRef w)
    (sessionPromiseRef w) (nextStartTimeRef w) (sourcesRef w) (streamRef w)
    (scriptProcessorRef w) (sessions w) (processors w) (tasks w)
    (trace w ++ [e]) (fresh w).

(** Allocate [n] identities for new browser objects. *)
Definition alloc (n : nat) (w : World) : World :=
  mkWorld (app w) (audioContextRef w) (outAudioContextRef w)
    (sessionPromiseRef w) (nextStartTimeRef w) (sourcesRef w) (streamRef w)
    (scriptProcessorRef w) (sessions w) (processors w) (tasks w) (trace w)
    (n + fresh w).

(** Park the rest of a handler at an await. *)
Definition suspend (t : Task) (w : World) : World :=
  alloc 1 (set_tasks (<[fresh w := t]> (tasks w)) w).

(** ** handleMessage, lines 58-116 *)

(** [message.serverContent?.modelTurn?.parts[0]?.inlineData?.data], line 59.
    The chain stops at the first missing link, except that [parts] is
    indexed without [?.]: a turn without [parts] throws. *)
Definition audioData (message : LiveServerMessage) : Completion (option string) :=
  match serverContent message with
  | None => Normal None
  | Some sc =>
      match modelTurn sc with
      | None => Normal None
      | Some turn =>
          match parts turn with
          | None => Throw
          | Some [] => Normal None
          | Some (p :: _) =>
              Normal (match inlineData p with
                      | Some b => data b
                      | None => None
                      end)
          end
      end
  end.

Definition ModelName_PRO : string := "gemini-3-pro-preview".

(** The template literal of line 90. *)
Definition prompt (a : Args) : string :=
  "Act as a Master Developer built by aarsh. Generate optimized code for: "
  +:+ description a +:+ ". Target Language: " +:+ language a
  +:+ ". Only return raw code.".

Definition generateRequest (a : Args) : GenerateRequest :=
  {| req_model := ModelName_PRO; req_thinkingBudget := 4000;
     req_contents := prompt a |}.

(** The state updaters, in the order they appear in the handler. *)

(* line 73 *)
Definition setLiveUserText (t : Transcription) (p : AppState) : AppState :=
  mkAppState (isListening p) (isProcessing p) (currentCode p)
    (currentDescription p) (history p) (error p)
    (orDefault (text t) EmptyString) (liveAiText p) (view p).

(* line 76 *)
Definition setLiveAiText (t : Transcription) (p : AppState) : AppState :=
  mkAppState (isListening p) (isProcessing p) (currentCode p)
    (currentDescription p) (history p) (error p)
    (liveUserText p) (orDefault (text t) EmptyString) (view p).

(* line 83 *)
Definition setProcessing (d : string) (prev : AppState) : AppState :=
  mkAppState (isListening prev) true (currentCode prev) d (history prev)
    (error prev) (liveUserText prev) (liveAiText prev) (view prev).

(* lines 96-102; [slice(0, 15)] keeps the first fifteen entries *)
Definition setSnippet (code : string) (newSnippet : CodeSnippet)
    (prev : AppState) : AppState :=
  mkAppState (isListening prev) false code (currentDescription prev)
    (take 15 (newSnippet :: history prev)) (error prev)
    (liveUserText prev) (liveAiText prev) ViewCode.

(* line 111 *)
Definition setKernelOverload (p : AppState) : AppState :=
  mkAppState (isListening p) false (currentCode p) (currentDescription p)
    (history p) (Some "Kernel overload") (liveUserText p) (liveAiText p)
    (view p).

(** The loop of lines 80-114, from its head up to the next await.  A call
    by another name is skipped; [generate_code] reads its arguments
    (destructuring a missing [args] throws outside the [try], which ends
    the handler), marks the state as processing and awaits the
    generation call. *)
Fixpoint toolLoop (fcs : list FunctionCall) (w : World) : World :=
  match fcs with
  | [] => w
  | fc :: rest =>
      if bool_decide (fc_name fc = Some "generate_code") then
        match fc_args fc with
        | None => w
        | Some a =>
            let w1 := setState (setProcessing (description a)) w in
            let w2 := emit (GenerateContent (generateRequest a)) w1 in
            suspend (AwaitGenerate fc a rest) w2
        end
      else toolLoop rest w
  end.

(** Lines 72-79: the two transcript updates, then the tool calls.
    Iterating over a missing [functionCalls] throws. *)
Definition afterAudio (message : LiveServerMessage) (w : World) : World :=
  let w1 :=
    match serverContent message with
    | Some sc =>
        match inputTranscription sc with
        | Some t => setState (setLiveUserText t) w
        | None => w
        end
    | None => w
    end in
  let w2 :=
    match serverContent message with
    | Some sc =>
        match outputTranscription sc with
        | Some t => setState (setLiveAiText t) w1
        | None => w1
        end
    | None => w1
    end in
  match toolCall message with
  | Some tc =>
      match functionCalls tc with
      | Some fcs => toolLoop fcs w2
      | None => w2
      end
  | None => w2
  end.

(** Lines 59-63: from the call up to the first await.  [now] is the
    reading of [ctx.currentTime] at line 62. *)
Definition handleMessage (message : LiveServerMessage) (now : Z)
    (w : World) : World :=
  match audioData message with
  | Throw => w
  | Normal audio =>
      match truthy audio, outAudioContextRef w with
      | true, Some ctx =>
          let w1 := set_nextStartTime (Z.max (nextStartTimeRef w) now) w in
          suspend (AwaitDecode message ctx) w1
      | _, _ => afterAudio message w
      end
  end.

(** Lines 63-69 and on: [decodeAudioData] has settled.  A rejection ends
    the handler; a buffer is started at the cursor, the cursor moves past
    it and the source joins [sourcesRef]. *)
Definition resumeDecode (message : LiveServerMessage) (ctx : nat)
    (r : Completion AudioBuffer) (w : World) : World :=
  match r with
  | Throw => w
  | Normal buffer =>
      let source := fresh w in
      let w1 := alloc 1 w in
      let w2 := emit (SourceStart source ctx (nextStartTimeRef w1)
                        (duration buffer)) w1 in
      let w3 := set_nextStartTime
                  (nextStartTimeRef w2 + duration buffer)%Z w2 in
      let w4 := add_source source w3 in
      afterAudio message w4
  end.

(** The snippet of line 94. *)
Definition newSnippet (a : Args) (response : GenerateContentResponse)
    (idNow stampNow : Z) : CodeSnippet :=
  {| cs_id := pretty idNow; cs_language := language a;
     cs_code := orDefault (responseText response) "// Synthesis failed";
     cs_description := description a; cs_timestamp := stampNow |}.

(** The response of line 107 to the call [fc]. *)
Definition compiledResponse (fc : FunctionCall) : FunctionResponse :=
  {| fr_id := fc_id fc; fr_name := fc_name fc; fr_result := "Compiled." |}.

(** Lines 93-104 and the [catch] of line 110: the generation call has
    settled.  [idNow] and [stampNow] are the two readings of [Date.now()]
    at line 94. *)
Definition resumeGenerate (fc : FunctionCall) (a : Args)
    (rest : list FunctionCall) (r : Completion GenerateContentResponse)
    (idNow stampNow : Z) (w : World) : World :=
  match r with
  | Normal response =>
      let code := orDefault (responseText response) "// Synthesis failed" in
      let w1 := setState
                  (setSnippet code (newSnippet a response idNow stampNow)) w in
      match sessionPromiseRef w1 with
      | Some s => suspend (AwaitSession fc rest s) w1
      | None => toolLoop rest w1
      end
  | Throw => toolLoop rest (setState setKernelOverload w)
  end.

(** Lines 105-109 and the [catch]: the session promise has settled. *)
Definition resumeSession (fc : FunctionCall) (rest : list FunctionCall)
    (s : nat) (r : Completion unit) (w : World) : World :=
  match r with
  | Normal _ =>
      toolLoop rest (emit (SendToolResponse s (compiledResponse fc)) w)
  | Throw => toolLoop rest (setState setKernelOverload w)
  end.

(** ** startSession, lines 118-160 *)

(* line 156 *)
Definition setListening (p : AppState) : AppState :=
  mkAppState true (isProcessing p) (currentCode p) (currentDescription p)
    (history p) None (liveUserText p) (liveAiText p) (view p).

(* line 158 *)
Definition setMicrophoneDenied (p : AppState) : AppState :=
  mkAppState (isListening p) (isProcessing p) (currentCode p)
    (currentDescription p) (history p) (Some "Microphone permission denied")
    (liveUserText p) (liveAiText p) (view p).

(* lines 152 and 167 *)
Definition setNotListening (p : AppState) : AppState :=
  mkAppState false (isProcessing p) (currentCode p) (currentDescription p)
    (history p) (error p) (liveUserText p) (liveAiText p) (view p).

(** [media] is the outcome of [getUserMedia], [resumed] that of the two
    [resume()] calls; the awaits of [startSession] are not split, the
    outcomes come with the click.  Whatever throws inside the [try] lands
    in the one [catch]. *)
Definition startSession (media resumed : Completion unit) (w : World) : World :=
  match media with
  | Throw => setState setMicrophoneDenied w
  | Normal _ =>
      let stream := fresh w in
      let inCtx := S (fresh w) in
      let outCtx := S (S (fresh w)) in
      let w1 := set_stream stream (alloc 3 w) in
      match resumed with
      | Throw => setState setMicrophoneDenied w1
      | Normal _ =>
          let w2 := set_contexts inCtx outCtx w1 in
          let session := fresh w2 in
          let w3 := emit (Connect session)
                      (set_session session Pending (alloc 1 w2)) in
          let w4 := set_sessionPromise session w3 in
          setState setListening w4
      end
  end.

(** The [onopen] callback, lines 141-150: a script processor is created,
    wired to the session of this call and stored in the ref. *)
Definition onopen (session : nat) (w : World) : World :=
  let scriptProcessor := fresh w in
  let w1 := set_processors (<[scriptProcessor := session]> (processors w))
              (alloc 1 w) in
  set_scriptProcessor scriptProcessor w1.

(** [onaudioprocess], line 145: [media] is what [createBlob] made of the
    captured frame. *)
Definition onaudioprocess (session : nat) (media : string) (w : World) : World :=
  match sessions w !! session with
  | Some Resolved => emit (SendRealtimeInput session media) w
  | _ => w
  end.

(** The [onclose] callback, line 152. *)
Definition onclose (w : World) : World := setState setNotListening w.

(** ** stopSession, lines 162-168 *)

Definition stopSession (w : World) : World :=
  let w1 := match scriptProcessorRef w with
            | Some p => emit (ProcessorDisconnect p)
                          (set_processors (delete p (processors w)) w)
            | None => w
            end in
  let w2 := match streamRef w1 with
            | Some s => emit (TracksStop s) w1
            | None => w1
            end in
  let w3 := match audioContextRef w2 with
            | Some c => emit (ContextClose c) w2
            | None => w2
            end in
  let w4 := match outAudioContextRef w3 with
            | Some c => emit (ContextClose c) w3
            | None => w3
            end in
  setState setNotListening w4.

(** ** The event loop *)

Inductive Event :=
  | ClickStart (media resumed : Completion unit)
  | ClickStop
  | Opened (session : nat)
  | ConnectFailed (session : nat)
  | Closed
  | Message (message : LiveServerMessage) (now : Z)
  | Decoded (task : nat) (r : Completion AudioBuffer)
  | Generated (task : nat) (r : Completion GenerateContentResponse)
      (idNow stampNow : Z)
  | SessionSettled (task : nat)
  | AudioProcess (processor : nat) (media : string).

Definition finish (task : nat) (w : World) : World :=
  set_tasks (delete task (tasks w)) w.

(** One turn of the event loop; [None] when the event cannot happen in
    this world (no such task, processor or pending promise). *)
Definition step (w : World) (e : Event) : option World :=
  match e with
  | ClickStart media resumed => Some (startSession media resumed w)
  | ClickStop => Some (stopSession w)
  | Opened s =>
      match sessions w !! s with
      | Some Pending => Some (onopen s (set_session s Resolved w))
      | _ => None
      end
  | ConnectFailed s =>
      match sessions w !! s with
      | Some Pending => Some (set_session s Rejected w)
      | _ => None
      end
  | Closed => Some (onclose w)
  | Message message now => Some (handleMessage message now w)
  | Decoded t r =>
      match tasks w !! t with
      | Some (AwaitDecode message ctx) =>
          Some (resumeDecode message ctx r (finish t w))
      | _ => None
      end
  | Generated t r idNow stampNow =>
      match tasks w !! t with
      | Some (AwaitGenerate fc a rest) =>
          Some (resumeGenerate fc a rest r idNow stampNow (finish t w))
      | _ => None
      end
  | SessionSettled t =>
      match tasks w !! t with
      | Some (AwaitSession fc rest s) =>
          match sessions w !! s with
          | Some Resolved => Some (resumeSession fc rest s (Normal ()) (finish t w))
          | Some Rejected => Some (resumeSession fc rest s Throw (finish t w))
          | _ => None
          end
      | _ => None
      end
  | AudioProcess p media =>
      match processors w !! p with
      | Some s => Some (onaudioprocess s media w)
      | None => None
      end
  end.

Fixpoint run (w : World) (es : list Event) : option World :=
  match es with
  | [] => Some w
  | e :: es' =>
      match step w e with
      | Some w' => run w' es'
      | None => None
      end
  end.

(** ** Observations on the trace *)

(** The playback schedule: start time and duration of every source, in
    the order of the [source.start] calls. *)
Fixpoint schedule (tr : list Effect) : list (Z * Z) :=
  match tr with
  | [] => []
  | SourceStart _ _ when dur :: tr' => (when, dur) :: schedule tr'
  | _ :: tr' => schedule tr'
  end.

(** The tool responses sent, oldest first. *)
Fixpoint toolResponses (tr : list Effect) : list (nat * FunctionResponse) :=
  match tr with
  | [] => []
  | SendToolResponse s r :: tr' => (s, r) :: toolResponses tr'
  | _ :: tr' => toolResponses tr'
  end.

(** The audio chunks sent, oldest first. *)
Fixpoint realtimeInputs (tr : list Effect) : list (nat * string) :=
  match tr with
  | [] => []
  | SendRealtimeInput s m :: tr' => (s, m) :: realtimeInputs tr'
  | _ :: tr' => realtimeInputs tr'
  end.


(** ** Playback scheduling, as sequences of arrivals *)
(** A decoded buffer on its way in: the message that carries the audio,
    the clock reading when the handler runs and the buffer the decoder
    makes of it. *)
Record Arrival := mkArrival {
  arr_message : LiveServerMessage;
  arr_now : Z;
  arr_buffer : AudioBuffer
}.

(** The test of line 60 on the message's part. *)
Definition carriesAudio (message : LiveServerMessage) : bool :=
  match audioData message with
  | Normal audio => truthy audio
  | Throw => false
  end.

(** The handler takes the message and its decoding settles before the
    next message comes in. *)
Definition deliver (w : World) (a : Arrival) : option World :=
  run w [Message (arr_message a) (arr_now a);
         Decoded (fresh w) (Normal (arr_buffer a))].

Fixpoint deliverAll (w : World) (arrivals : list Arrival) : option World :=
  match arrivals with
  | [] => Some w
  | a :: rest =>
      match deliver w a with
      | Some w' => deliverAll w' rest
      | None => None
      end
  end.

(** The scheduler in the spec's words: [startAt = max(nextStartTime, now)],
    then [nextStartTime = startAt + D].  [specSchedule] lists the pairs
    (startAt, D) and [specCursor] is the cursor left behind. *)
Fixpoint specSchedule (nextStartTime : Z) (arrivals : list Arrival)
    : list (Z * Z) :=
  match arrivals with
  | [] => []
  | a :: rest =>
      let startAt := Z.max nextStartTime (arr_now a) in
      (startAt, duration (arr_buffer a))
        :: specSchedule (startAt + duration (arr_buffer a))%Z rest
  end.

Fixpoint specCursor (nextStartTime : Z) (arrivals : list Arrival) : Z :=
  match arrivals with
  | [] => nextStartTime
  | a :: rest =>
      let startAt := Z.max nextStartTime (arr_now a) in
      specCursor (startAt + duration (arr_buffer a))%Z rest
  end.


(** Every buffer arrives while the cursor is still ahead of the clock. *)
Fixpoint pressed (nextStartTime : Z) (arrivals : list Arrival) : Prop :=
  match arrivals with
  | [] => True
  | a :: rest =>
      (arr_now a <= nextStartTime)%Z
      /\ pressed (nextStartTime + duration (arr_buffer a))%Z rest
  end.


(** ** Frames *)

(** The refs and the surroundings a piece of code does not write. *)
Record sameRefs (w w' : World) : Prop := mkSameRefs {
  same_audioContextRef : audioContextRef w' = audioContextRef w;
  same_outAudioContextRef : outAudioContextRef w' = outAudioContextRef w;
  same_sessionPromiseRef : sessionPromiseRef w' = sessionPromiseRef w;
  same_nextStartTimeRef : nextStartTimeRef w' = nextStartTimeRef w;
  same_sourcesRef : sourcesRef w' = sourcesRef w;
  same_streamRef : streamRef w' = streamRef w;
  same_scriptProcessorRef : scriptProcessorRef w' = scriptProcessorRef w;
  same_sessions : sessions w' = sessions w;
  same_processors : processors w' = processors w;
  same_schedule : schedule (trace w') = schedule (trace w);
  same_toolResponses : toolResponses (trace w') = toolResponses (trace w);
  same_realtimeInputs : realtimeInputs (trace w') = realtimeInputs (trace w)
}.


(** ** Events of one kind *)

(** A partial transcript of the local speaker, and one of the remote
    speaker: a message with that one transcription and nothing else. *)
Definition localPartial (p : Transcription) : LiveServerMessage :=
  {| serverContent :=
       Some {| modelTurn := None; inputTranscription := Some p;
               outputTranscription := None |};
     toolCall := None |}.









(** A message that carries tool calls and nothing else. *)
Definition toolMessage (fcs : list FunctionCall) : LiveServerMessage :=
  {| serverContent := None;
     toolCall := Some {| functionCalls := Some fcs |} |}.

(** A message that carries one chunk of audio and nothing else. *)
Definition audioMessage (d : string) : LiveServerMessage :=
  {| serverContent :=
       Some {| modelTurn :=
                 Some {| parts := Some [ {| inlineData := Some {| data := Some d |} |} ] |};
               inputTranscription := None; outputTranscription := None |};
     toolCall := None |}.

(** The effects [stopSession] can have. *)
Definition isTeardown (e : Effect) : bool :=
  match e with
  | ProcessorDisconnect _ | TracksStop _ | ContextClose _ => true
  | _ => false
  end.

(** What [stopSession] does to the browser, by the refs that are set. *)
Definition teardownEffects (w : World) : list Effect :=
  match scriptProcessorRef w with
  | Some p => [ProcessorDisconnect p]
  | None => []
  end
  ++ match streamRef w with
     | Some s => [TracksStop s]
     | None => []
     end
  ++ match audioContextRef w with
     | Some c => [ContextClose c]
     | None => []
     end
  ++ match outAudioContextRef w with
     | Some c => [ContextClose c]
     | None => []
     end.

(** ** What every turn of the event loop preserves *)

(** [chainedFrom t l t']: the entries of [l] start at or after [t], each
    one at or after the end of the one before it, and the last one ends at
    or before [t']; durations are not negative. *)
Fixpoint chainedFrom (t : Z) (l : list (Z * Z)) (t' : Z) : Prop :=
  match l with
  | [] => (t <= t')%Z
  | (s, d) :: l' => (t <= s)%Z /\ (0 <= d)%Z /\ chainedFrom (s + d)%Z l' t'
  end.

(** From [w] to [w']: the schedule has grown by entries chained between
    the two cursors, no source has left [sourcesRef], and a history within
    its bound is still within it. *)
Record advances (w w' : World) : Prop := mkAdvances {
  adv_schedule :
    exists new,
      schedule (trace w') = schedule (trace w) ++ new
      /\ chainedFrom (nextStartTimeRef w) new (nextStartTimeRef w');
  adv_sources : sourcesRef w ⊆ sourcesRef w';
  adv_history :
    length (history (app w)) <= 15 -> length (history (app w')) <= 15
}.

(** ** A component with no way to the microphone *)

(** No connection is being opened, no script processor is wired and the
    state is not listening. *)
Record idle (w : World) : Prop := mkIdle {
  idle_sessions : forall s, sessions w !! s <> Some Pending;
  idle_processors : processors w = ∅;
  idle_listening : isListening (app w) = false
}.

Definition isClickStart (e : Event) : bool :=
  match e with
  | ClickStart _ _ => true
  | _ => false
  end.

(** From [w] to [w']: the same sessions and processors, the same audio
    sent, the same [isListening]. *)
Record quiet (w w' : World) : Prop := mkQuiet {
  quiet_sessions : sessions w' = sessions w;
  quiet_processors : processors w' = processors w;
  quiet_inputs : realtimeInputs (trace w') = realtimeInputs (trace w);
  quiet_listening : isListening (app w') = isListening (app w)
}.

(** ** Concrete sessions *)

Definition ok : Completion unit := Normal ().

(** A session that was started and whose connection has opened: the
    stream is 0, the contexts are 1 and 2, the session is 3 and the script
    processor is 4. *)
Definition liveWorld : World :=
  default initialWorld (run initialWorld [ClickStart ok ok; Opened 3]).

(** The invocation of the spec's round-trip example. *)
Definition reverseCall : FunctionCall :=
  {| fc_id := Some "abc"; fc_name := Some "generate_code";
     fc_args := Some {| description := "reverse a string";
                        language := "python" |} |}.

Definition reverseText : string := "def rev(s): return s[::-1]".

Definition reverseResponse : GenerateContentResponse :=
  {| responseText := Some reverseText |}.

(** A tenth of a second of audio arriving at clock reading [now]. *)
Definition chunkAt (now : Z) : Arrival :=
  {| arr_message := audioMessage "UklGRg=="; arr_now := now;
     arr_buffer := {| frames := 2400 |} |}.

(** The live session after one chunk has been scheduled: the handler's
    task was 5, the source is 6. *)
Definition playingWorld : World :=
  default initialWorld (deliver liveWorld (chunkAt 0)).

(** The session is stopped and a new one is started and opens: stream 7,
    contexts 8 and 9, session 10, script processor 11. *)
Definition restartRun : list Event := [ClickStop; ClickStart ok ok; Opened 10].

Definition restartedWorld : World :=
  default initialWorld (run playingWorld restartRun).

(** The round trip of [reverseCall] on the live session: the call comes
    in, the generation call settles with [r], the session promise is
    awaited. *)
Definition roundTripRun (r : Completion GenerateContentResponse)
    : list Event :=
  [Message (toolMessage [reverseCall]) 0;
   Generated 5 r 1700000000000 1700000000001;
   SessionSettled 6].

Definition roundTripWorld : World :=
  default initialWorld (run liveWorld (roundTripRun (Normal reverseResponse))).

(** The same with [stopSession] called while the generation call is in
    flight. *)
Definition orphanRun : list Event :=
  [Message (toolMessage [reverseCall]) 0;
   ClickStop;
   Generated 5 (Normal reverseResponse) 1700000000000 1700000000001;
   SessionSettled 6].

Definition orphanWorld : World :=
  default initialWorld (run liveWorld orphanRun).

(** The generation call fails. *)
Definition failedRun : list Event :=
  [Message (toolMessage [reverseCall]) 0;
   Generated 5 Throw 1700000000000 1700000000001].

Definition failedWorld : World :=
  default initialWorld (run liveWorld failedRun).

(** Three chunks that arrive faster than they play. *)
Definition threeChunks : list Arrival := [chunkAt 0; chunkAt 100; chunkAt 4000].

(** Three chunks with a pause before the last. *)
Definition pausedChunks : list Arrival := [chunkAt 0; chunkAt 100; chunkAt 9000].








(** ** More of the tool loop *)

(** The events that settle the jobs of one message, one after the other:
    for each job the generation call, with its response and the two clock
    readings of line 94, then the await of the session promise.  [t] is
    the handler's task at the first await. *)
Fixpoint serveEvents (t : nat)
    (rs : list (GenerateContentResponse * Z * Z)) : list Event :=
  match rs with
  | [] => []
  | (r, idNow, stampNow) :: rs' =>
      Generated t (Normal r) idNow stampNow
        :: SessionSettled (S t)
        :: serveEvents (S (S t)) rs'
  end.

(** The calls of a message that get a job: those named [generate_code],
    up to the first of them that has no arguments. *)
Fixpoint dispatched (fcs : list FunctionCall) : list (FunctionCall * Args) :=
  match fcs with
  | [] => []
  | fc :: rest =>
      if bool_decide (fc_name fc = Some "generate_code") then
        match fc_args fc with
        | Some a => (fc, a) :: dispatched rest
        | None => []
        end
      else dispatched rest
  end.

(** What serving a job does to the outside: the request, then the
    response on session [s]. *)
Definition servedEffects (s : nat) (job : FunctionCall * Args) : list Effect :=
  [GenerateContent (generateRequest job.2);
   SendToolResponse s (compiledResponse job.1)].

(** ** Invariants of the component *)

(** A parked handler of the tool loop belongs to a call named
    [generate_code]. *)
Definition taskNamed (t : Task) : Prop :=
  match t with
  | AwaitDecode _ _ => True
  | AwaitGenerate fc _ _ => fc_name fc = Some "generate_code"
  | AwaitSession fc _ _ => fc_name fc = Some "generate_code"
  end.

Definition responseCompiled (sr : nat * FunctionResponse) : Prop :=
  fr_result sr.2 = "Compiled." /\ fr_name sr.2 = Some "generate_code".

Record sound (w : World) : Prop := mkSound {
  sound_sources_fresh : forall x, x ∈ sourcesRef w -> x < fresh w;
  sound_sources_count : size (sourcesRef w) = length (schedule (trace w));
  sound_promise :
    match sessionPromiseRef w with
    | Some s => is_Some (sessions w !! s)
    | None => sessions w = ∅
    end;
  sound_tasks : map_Forall (fun _ t => taskNamed t) (tasks w);
  sound_responses : Forall responseCompiled (toolResponses (trace w))
}.

(** An effect other than the start of a source, and if it is a tool
    response, one that says [Compiled.] for [generate_code]. *)
Definition plainEffect (e : Effect) : Prop :=
  match e with
  | SourceStart _ _ _ _ => False
  | SendToolResponse s r => responseCompiled (s, r)
  | _ => True
  end.

(** ** More concrete sessions *)

(** A chunk of audio that also carries a transcript of each side and a
    call. *)
Definition fullMessage : LiveServerMessage :=
  {| serverContent :=
       Some {| modelTurn :=
                 Some {| parts :=
                           Some [ {| inlineData :=
                                       Some {| data := Some "UklGRg==" |} |} ] |};
               inputTranscription := Some {| text := Some "reverse it" |};
               outputTranscription := Some {| text := Some "On it." |} |};
     toolCall := Some {| functionCalls := Some [reverseCall] |} |}.

(** A call by a name the component does not serve, and a call to
    [generate_code] that lost its arguments. *)
Definition otherCall : FunctionCall :=
  {| fc_id := Some "x1"; fc_name := Some "run_tests"; fc_args := None |}.

Definition arglessCall : FunctionCall :=
  {| fc_id := Some "x2"; fc_name := Some "generate_code"; fc_args := None |}.

Definition sortCall : FunctionCall :=
  {| fc_id := Some "def"; fc_name := Some "generate_code";
     fc_args := Some {| description := "sort a list";
                        language := "python" |} |}.

Definition sortResponse : GenerateContentResponse :=
  {| responseText := Some "def srt(l): return sorted(l)" |}.

(** * Strings *)

(** [c] occurs in [s]. *)
Fixpoint occurs (c : Ascii.ascii) (s : string) : bool :=
  match s with
  | EmptyString => false
  | String c' s' => Ascii.eqb c' c || occurs c s'
  end.

(** [s.startsWith(p)] and [s.includes(p)]. *)
Fixpoint startsWith (s p : string) : bool :=
  match p, s with
  | EmptyString, _ => true
  | String _ _, EmptyString => false
  | String cp p', String cs s' => Ascii.eqb cs cp && startsWith s' p'
  end.

Fixpoint includes (s p : string) : bool :=
  startsWith s p
  || match s with
     | EmptyString => false
     | String _ s' => includes s' p
     end.

(** * The assistant chat of src/App.tsx

    [handleSendMessage], lines 170-251, with the part of the React state
    it shares with the session ([isProcessing], [error]) and the part of
    its own.  Its two awaits - the position of the device, asked for with
    maps grounding only, and the generation call - are suspension points,
    as in the session. *)

Module Chat.

(** *** types.ts *)

Inductive Role := user | assistant.

(** A link as line 227 builds it: the two properties are copied from the
    chunk, where both are optional. *)
Record GroundingLink := mkLink {
  uri : option string;
  title : option string
}.

Record ChatMessage := mkChatMessage {
  id : string;
  role : Role;
  text : string;
  image : option string;
  timestamp : Z;
  groundingLinks : option (list GroundingLink);
  isThinking : option bool
}.

Inductive Grounding := GroundNone | GroundSearch | GroundMaps.

(** [AppState] as a whole: the fields of the session, and those of the
    chat. *)
Record State := mkState {
  base : AppState;
  chatHistory : list ChatMessage;
  useThinking : bool;
  useGrounding : Grounding
}.

Definition initial : State :=
  {| base := initialState; chatHistory := []; useThinking := false;
     useGrounding := GroundNone |}.

(** *** The generation call *)

Definition ModelName_FLASH : string := "gemini-3-flash-preview".
Definition ModelName_MAPS_BASE : string := "gemini-2.5-flash".

Inductive Tool := googleSearch | googleMaps.

(** The coordinates are copied from the position into the request and
    never computed with. *)
Record LatLng := mkLatLng { latitude : Z; longitude : Z }.

Record Config := mkConfig {
  systemInstruction : string;
  thinkingBudget : option Z;
  tools : option (list Tool);
  latLng : option LatLng
}.

Inductive Content :=
  | TextContent (t : string)
  | ImageContent (data : option string) (mimeType : string) (t : string).

Record Request := mkRequest {
  model : string;
  contents : list Content;
  config : Config
}.

Record Source := mkSource {
  source_uri : option string;
  source_title : option string
}.

Record GroundingChunk := mkChunk {
  web : option Source;
  maps : option Source
}.

(** What the handler reads of the response: [response.text] and
    [response.candidates?.[0]?.groundingMetadata?.groundingChunks]. *)
Record Response := mkResponse {
  reply : option string;
  groundingChunks : option (list GroundingChunk)
}.

(** [s.split(sep)]: the pieces of [s] between the separators. *)
Fixpoint split (sep : Ascii.ascii) (s : string) : list string :=
  match s with
  | EmptyString => [EmptyString]
  | String c s' =>
      if Ascii.eqb c sep then EmptyString :: split sep s'
      else match split sep s' with
           | piece :: pieces => String c piece :: pieces
           | [] => [String c EmptyString]
           end
  end.

(** The character [,]. *)
Definition comma : Ascii.ascii := Ascii.ascii_of_nat 44.

(** [imageData.split(',')[1]], line 207. *)
Definition imagePayload (imageData : string) : option string :=
  split comma imageData !! 1.

(** Lines 176-183: the model and the configuration before grounding. *)
Definition thinkingModel (thinking : bool) : string :=
  if thinking then ModelName_PRO else ModelName_FLASH.

Definition thinkingConfig (thinking : bool) : Config :=
  {| systemInstruction :=
       "You are Assistant Codex, engineered by aarsh. Provide expert coding and general assistance.";
     thinkingBudget := if thinking then Some 32768%Z else None;
     tools := None; latLng := None |}.

Definition withTools (ts : list Tool) (c : Config) : Config :=
  mkConfig (systemInstruction c) (thinkingBudget c) (Some ts) (latLng c).

Definition withLatLng (p : LatLng) (c : Config) : Config :=
  mkConfig (systemInstruction c) (thinkingBudget c) (tools c) (Some p).

(** Lines 203-213. *)
Definition buildContents (t : string) (imageData : option string)
    : list Content :=
  if truthy imageData then
    match imageData with
    | Some d => [ImageContent (imagePayload d) "image/png" t]
    | None => [TextContent t]
    end
  else [TextContent t].

(** Lines 222-230: every chunk gives its web link, then its maps link. *)
Definition linkOf (s : Source) : GroundingLink :=
  {| uri := source_uri s; title := source_title s |}.

Fixpoint collectLinks (chunks : list GroundingChunk) : list GroundingLink :=
  match chunks with
  | [] => []
  | chunk :: rest =>
      match web chunk with Some s => [linkOf s] | None => [] end
      ++ match maps chunk with Some s => [linkOf s] | None => [] end
      ++ collectLinks rest
  end.

Definition linksOf (r : Response) : list GroundingLink :=
  match groundingChunks r with
  | Some chunks => collectLinks chunks
  | None => []
  end.

(** Line 171 and lines 232-239. *)
Definition userMsg (t : string) (imageData : option string)
    (idNow stampNow : Z) : ChatMessage :=
  {| id := pretty idNow; role := user; text := t; image := imageData;
     timestamp := stampNow; groundingLinks := None; isThinking := None |}.

Definition assistantMsg (r : Response) (thinking : bool)
    (idNow stampNow : Z) : ChatMessage :=
  {| id := pretty idNow; role := assistant;
     text := orDefault (reply r) "No response generated.";
     image := None; timestamp := stampNow;
     groundingLinks :=
       match linksOf r with
       | [] => None
       | links => Some links
       end;
     isThinking := Some thinking |}.

(** *** The handler *)

(** The state updaters of lines 172, 241 and 249, and of the buttons of
    lines 363 and 377. *)
Definition pushMessage (m : ChatMessage) (processing : bool) (prev : State)
    : State :=
  let p := base prev in
  mkState
    (mkAppState (isListening p) processing (currentCode p)
       (currentDescription p) (history p) (error p) (liveUserText p)
       (liveAiText p) (view p))
    (chatHistory prev ++ [m]) (useThinking prev) (useGrounding prev).

Definition setLinkFailed (prev : State) : State :=
  let p := base prev in
  mkState
    (mkAppState (isListening p) false (currentCode p)
       (currentDescription p) (history p) (Some "Neural link failed")
       (liveUserText p) (liveAiText p) (view p))
    (chatHistory prev) (useThinking prev) (useGrounding prev).

Definition toggleThinking (p : State) : State :=
  mkState (base p) (chatHistory p) (negb (useThinking p)) (useGrounding p).

Definition setGrounding (g : Grounding) (p : State) : State :=
  mkState (base p) (chatHistory p) (useThinking p) g.

(** The handler parked at one of its awaits, with the locals that are
    live there; [thinking] is [state.useThinking] as the call saw it. *)
Inductive Task :=
  | AwaitPosition (thinking : bool) (t : string) (imageData : option string)
  | AwaitReply (thinking : bool).

Record Desk := mkDesk {
  state : State;
  pending : gmap nat Task;
  sent : list Request;
  next : nat
}.

Definition initialDesk : Desk :=
  {| state := initial; pending := ∅; sent := []; next := 0 |}.

(** Lines 215-219: the call goes out and the handler waits for it. *)
Definition request (thinking : bool) (m : string) (c : Config)
    (t : string) (imageData : option string) (d : Desk) : Desk :=
  mkDesk (state d) (<[next d := AwaitReply thinking]> (pending d))
    (sent d ++ [ {| model := m; contents := buildContents t imageData;
                    config := c |} ])
    (S (next d)).

(** Lines 171-201: from the call to the first await. *)
Definition handleSendMessage (t : string) (imageData : option string)
    (idNow stampNow : Z) (d : Desk) : Desk :=
  let thinking := useThinking (state d) in
  let d1 := mkDesk (pushMessage (userMsg t imageData idNow stampNow) true
                      (state d))
              (pending d) (sent d) (next d) in
  match useGrounding (state d) with
  | GroundNone =>
      request thinking (thinkingModel thinking) (thinkingConfig thinking)
        t imageData d1
  | GroundSearch =>
      request thinking ModelName_FLASH
        (withTools [googleSearch] (thinkingConfig thinking)) t imageData d1
  | GroundMaps =>
      mkDesk (state d1)
        (<[next d1 := AwaitPosition thinking t imageData]> (pending d1))
        (sent d1) (S (next d1))
  end.

(** Lines 194-200: the position has come, or not; the [catch] is empty. *)
Definition resumePosition (thinking : bool) (t : string)
    (imageData : option string) (r : Completion LatLng) (d : Desk) : Desk :=
  let c := withTools [googleMaps] (thinkingConfig thinking) in
  match r with
  | Normal pos => request thinking ModelName_MAPS_BASE (withLatLng pos c)
                    t imageData d
  | Throw => request thinking ModelName_MAPS_BASE c t imageData d
  end.

(** Lines 221-250: the generation call has settled. *)
Definition resumeReply (thinking : bool) (r : Completion Response)
    (idNow stampNow : Z) (d : Desk) : Desk :=
  match r with
  | Normal response =>
      mkDesk (pushMessage (assistantMsg response thinking idNow stampNow)
                false (state d))
        (pending d) (sent d) (next d)
  | Throw => mkDesk (setLinkFailed (state d)) (pending d) (sent d) (next d)
  end.

Inductive Event :=
  | Send (t : string) (imageData : option string) (idNow stampNow : Z)
  | Located (task : nat) (r : Completion LatLng)
  | Replied (task : nat) (r : Completion Response) (idNow stampNow : Z)
  | ClickThinking
  | ClickGrounding (g : Grounding).

Definition finish (task : nat) (d : Desk) : Desk :=
  mkDesk (state d) (delete task (pending d)) (sent d) (next d).

Definition step (d : Desk) (e : Event) : option Desk :=
  match e with
  | Send t imageData idNow stampNow =>
      Some (handleSendMessage t imageData idNow stampNow d)
  | Located task r =>
      match pending d !! task with
      | Some (AwaitPosition thinking t imageData) =>
          Some (resumePosition thinking t imageData r (finish task d))
      | _ => None
      end
  | Replied task r idNow stampNow =>
      match pending d !! task with
      | Some (AwaitReply thinking) =>
          Some (resumeReply thinking r idNow stampNow (finish task d))
      | _ => None
      end
  | ClickThinking =>
      Some (mkDesk (toggleThinking (state d)) (pending d) (sent d) (next d))
  | ClickGrounding g =>
      Some (mkDesk (setGrounding g (state d)) (pending d) (sent d) (next d))
  end.

Fixpoint run (d : Desk) (es : list Event) : option Desk :=
  match es with
  | [] => Some d
  | e :: es' =>
      match step d e with
      | Some d' => run d' es'
      | None => None
      end
  end.

(** A data URL as [readAsDataURL] gives it. *)
Definition dataUrl (mime payload : string) : string :=
  "data:" +:+ mime +:+ ";base64," +:+ payload.

(** The number of links the chunks carry. *)
Fixpoint linkCount (chunks : list GroundingChunk) : nat :=
  match chunks with
  | [] => 0
  | chunk :: rest =>
      match web chunk with Some _ => 1 | None => 0 end
      + match maps chunk with Some _ => 1 | None => 0 end
      + linkCount rest
  end.

(** The clicks on send among the events, and the messages of the user
    among the messages. *)
Fixpoint sends (es : list Event) : nat :=
  match es with
  | [] => 0
  | Send _ _ _ _ :: es' => S (sends es')
  | _ :: es' => sends es'
  end.

Fixpoint userMessages (ms : list ChatMessage) : nat :=
  match ms with
  | [] => 0
  | m :: ms' =>
      match role m with
      | user => S (userMessages ms')
      | assistant => userMessages ms'
      end
  end.

(** The events of one send up to the point where its request is out:
    with maps grounding the position is awaited first. *)
Definition sendEvents (d : Desk) (t : string) (imageData : option string)
    (idNow stampNow : Z) (position : Completion LatLng) : list Event :=
  Send t imageData idNow stampNow
    :: match useGrounding (state d) with
       | GroundMaps => [Located (next d) position]
       | _ => []
       end.

End Chat.

(** * src/components/PreviewFrame.tsx *)

Module Preview.

(** [toLowerCase], on the letters A to Z; any other code unit is left as
    it is. *)
Definition lower (c : Ascii.ascii) : Ascii.ascii :=
  let n := Ascii.nat_of_ascii c in
  if (65 <=? n) && (n <=? 90) then Ascii.ascii_of_nat (n + 32) else c.

Fixpoint toLowerCase (s : string) : string :=
  match s with
  | EmptyString => EmptyString
  | String c s' => String (lower c) (toLowerCase s')
  end.

(** Lines 25-31. *)
Definition isRenderable (code : string) : bool :=
  includes (toLowerCase code) "<!doctype"
  || includes (toLowerCase code) "<html"
  || includes (toLowerCase code) "<div"
  || includes (toLowerCase code) "<svg"
  || includes (toLowerCase code) "class="
  || includes (toLowerCase code) "className=".

(** The component between two renders: the [code] prop, its two states
    and the timeout that is pending, with the code it will commit. *)
Record Frame := mkFrame {
  code : string;
  debouncedCode : string;
  isUpdating : bool;
  timer : option string
}.

(** The first render: [useState(code)], and the effect finds nothing to
    do. *)
Definition mount (c : string) : Frame :=
  {| code := c; debouncedCode := c; isUpdating := false; timer := None |}.

(** The effect of lines 12-22, run after a render in which [code] or
    [debouncedCode] has changed, once the cleanup of the run before has
    cleared its timeout. *)
Definition effect (f : Frame) : Frame :=
  if String.eqb (code f) (debouncedCode f) then
    mkFrame (code f) (debouncedCode f) (isUpdating f) None
  else
    mkFrame (code f) (debouncedCode f) true (Some (code f)).

(** The parent renders the component with the code [c]. *)
Definition setCode (c : string) (f : Frame) : Frame :=
  if String.eqb c (code f) then f
  else effect (mkFrame c (debouncedCode f) (isUpdating f) (timer f)).

(** The timeout runs, lines 17-18, and the render it causes. *)
Definition fire (f : Frame) : option Frame :=
  match timer f with
  | Some c =>
      let f1 := mkFrame (code f) c false None in
      Some (if String.eqb c (debouncedCode f) then f1 else effect f1)
  | None => None
  end.

Inductive Event := SetCode (c : string) | Fire.

Definition step (f : Frame) (e : Event) : option Frame :=
  match e with
  | SetCode c => Some (setCode c f)
  | Fire => fire f
  end.

Fixpoint run (f : Frame) (es : list Event) : option Frame :=
  match es with
  | [] => Some f
  | e :: es' =>
      match step f e with
      | Some f' => run f' es'
      | None => None
      end
  end.

(** Line 33: the placeholder is rendered instead of the frame. *)
Definition showsPlaceholder (f : Frame) : bool :=
  negb (isRenderable (code f)) && String.eqb (debouncedCode f) EmptyString.

(** What holds of the component between any two events. *)
Record settled (f : Frame) : Prop := mkSettled {
  settled_idle : timer f = None -> debouncedCode f = code f;
  settled_timer :
    forall c, timer f = Some c ->
              c = code f /\ code f <> debouncedCode f /\ isUpdating f = true
}.

End Preview.

(** * src/components/CodeDisplay.tsx *)

Module CodeDisplay.


End CodeDisplay.

(** * The other buttons of src/App.tsx *)

(** Line 390: a click on an entry of the recent builds. *)
Definition selectSnippet (item : CodeSnippet) (prev : AppState) : AppState :=
  mkAppState (isListening prev) (isProcessing prev) (cs_code item)
    (cs_description item) (history prev) (error prev) (liveUserText prev)
    (liveAiText prev) ViewCode.

(** From [p] to [p']: the code shown is the same and so is the view, or
    the view is the code view. *)
Definition codeInView (p p' : AppState) : Prop :=
  (currentCode p' = currentCode p /\ view p' = view p) \/ view p' = ViewCode.

(** * The studio panel: image generation and editing

    [handleError], [generateImage] and [editImage] of the studio panel.
    [trim] is the string method of that name. *)

Module Studio.

Inductive Tool := image | video | edit.

Record State := mkState {
  activeTool : Tool;
  prompt : string;
  aspectRatio : string;
  imageSize : string;
  isGenerating : bool;
  resultUrl : option string;
  error : option string;
  baseImage : option string
}.

(** The state of a panel just mounted (lines 15-22). *)
Definition initial : State :=
  {| activeTool := image; prompt := EmptyString; aspectRatio := "1:1";
     imageSize := "1K"; isGenerating := false; resultUrl := None;
     error := None; baseImage := None |}.

Definition setPrompt (p : string) (s : State) : State :=
  mkState (activeTool s) p (aspectRatio s) (imageSize s) (isGenerating s)
    (resultUrl s) (error s) (baseImage s).

Definition ModelName_PRO_IMAGE : string := "gemini-3-pro-image-preview".
Definition ModelName_FLASH_IMAGE : string := "gemini-2.5-flash-image".

(** The request of lines 69-73, and that of lines 96-104. *)
Inductive Request :=
  | ImageRequest (model : string) (text : string)
      (aspectRatio imageSize : string)
  | EditRequest (model : string) (data : option string) (mimeType : string)
      (text : string).

(** A part of the response, with its [inlineData?.data]: [None] when the
    part has no inline data, [Some None] when the data itself is
    missing. *)
Record Part := mkPart { inlineData : option (option string) }.

(** The outcome of the call: the parts of the first candidate (missing
    when the chain of line 75 is), or the message of the error thrown. *)
Inductive Outcome :=
  | Parts (parts : option (list Part))
  | Failed (message : string).

Definition permissionRequired : string :=
  "PERMISSION_REQUIRED: This model requires a Paid API Key with Billing enabled.".

(** Lines 52-61. *)
Definition handleError (msg : string) (s : State) : State :=
  let shown :=
    if includes msg "403" || includes msg "permission"
       || includes msg "Requested entity was not found"
    then permissionRequired else msg in
  mkState (activeTool s) (prompt s) (aspectRatio s) (imageSize s)
    (isGenerating s) (resultUrl s) (Some shown) (baseImage s).

Definition setIsGenerating (b : bool) (s : State) : State :=
  mkState (activeTool s) (prompt s) (aspectRatio s) (imageSize s) b
    (resultUrl s) (error s) (baseImage s).

Definition setError (e : option string) (s : State) : State :=
  mkState (activeTool s) (prompt s) (aspectRatio s) (imageSize s)
    (isGenerating s) (resultUrl s) e (baseImage s).

Definition setResultUrl (u : string) (s : State) : State :=
  mkState (activeTool s) (prompt s) (aspectRatio s) (imageSize s)
    (isGenerating s) (Some u) (error s) (baseImage s).

(** The template literal of lines 79 and 110; a missing [data] prints as
    [undefined]. *)
Definition pngUrl (data : option string) : string :=
  "data:image/png;base64," +:+ default "undefined" data.

(** The loop of lines 77-82: the first part with inline data. *)
Fixpoint firstInline (parts : list Part) : option (option string) :=
  match parts with
  | [] => None
  | part :: rest =>
      match inlineData part with
      | Some data => Some data
      | None => firstInline rest
      end
  end.

Section WithTrim.

Variable trim : string -> string.

(** Lines 64-73 and 91-104: from the click to the await; [None] when the
    guard returns at once. *)
Definition generateImage (s : State) : option (State * Request) :=
  if String.eqb (trim (prompt s)) EmptyString then None
  else
    Some (setError None (setIsGenerating true s),
          ImageRequest ModelName_PRO_IMAGE (prompt s) (aspectRatio s)
            (imageSize s)).

Definition editImage (s : State) : option (State * Request) :=
  if negb (truthy (baseImage s))
     || String.eqb (trim (prompt s)) EmptyString then None
  else
    match baseImage s with
    | Some b =>
        Some (setError None (setIsGenerating true s),
              EditRequest ModelName_FLASH_IMAGE (Chat.imagePayload b)
                "image/png" (prompt s))
    | None => None
    end.

End WithTrim.

(** Lines 75-87 and 106-118: the call has settled. *)
Definition settle (o : Outcome) (s : State) : State :=
  let s1 :=
    match o with
    | Parts None => handleError "Synthesis failed: Empty response" s
    | Parts (Some parts) =>
        match firstInline parts with
        | Some data => setResultUrl (pngUrl data) s
        | None => s
        end
    | Failed msg => handleError msg s
    end in
  setIsGenerating false s1.

End Studio.

(** ** Concrete sessions of the other panels *)

(** A session whose connection failed: the promise 3 is stored and
    rejected. *)
Definition rejectedWorld : World :=
  default initialWorld (run initialWorld [ClickStart ok ok; ConnectFailed 3]).

(** The events from a fresh component to [playingWorld], and those to
    [roundTripWorld]. *)
Definition playingRun : list Event :=
  [ClickStart ok ok; Opened 3;
   Message (arr_message (chunkAt 0)) (arr_now (chunkAt 0));
   Decoded 5 (Normal (arr_buffer (chunkAt 0)))].

Definition fullRoundTripRun : list Event :=
  [ClickStart ok ok; Opened 3] ++ roundTripRun (Normal reverseResponse).

(** The chat with maps grounding switched on. *)
Definition mapsDesk : Chat.Desk :=
  default Chat.initialDesk
    (Chat.step Chat.initialDesk (Chat.ClickGrounding Chat.GroundMaps)).

Definition helloResponse : Chat.Response :=
  {| Chat.reply := Some "Hello."; Chat.groundingChunks := None |}.

(** One question and its answer. *)
Definition helloRun : list Chat.Event :=
  [Chat.Send "hello" None 1700000000000 1700000000001;
   Chat.Replied 0 (Normal helloResponse) 1700000000002 1700000000003].

Definition helloDesk : Chat.Desk :=
  default Chat.initialDesk (Chat.run Chat.initialDesk helloRun).

(** The frame mounted on one code and given another. *)
Definition changedFrame : Preview.Frame :=
  default (Preview.mount "<div>a</div>")
    (Preview.run (Preview.mount "<div>a</div>")
       [Preview.SetCode "<div>b</div>"]).

(** The same once the timeout has run. *)
Definition settledFrame : Preview.Frame :=
  default changedFrame (Preview.step changedFrame Preview.Fire).

(** The studio panel with a prompt typed in. *)
Definition foxStudio : Studio.State :=
  Studio.setPrompt "a red fox" Studio.initial.
(** * Properties *)

(** ** Frames: what each piece of the handler leaves alone *)

(** Records built from strings stay folded while the state is simplified. *)
Arguments newSnippet : simpl never.
Arguments generateRequest : simpl never.
Arguments compiledResponse : simpl never.

(** Project a field out of an updated world or state, and nothing more.
    The updates are never unfolded on their own: each one copies its
    argument once per field. *)
Ltac fields :=
  cbn [app audioContextRef outAudioContextRef sessionPromiseRef
       nextStartTimeRef sourcesRef streamRef scriptProcessorRef sessions
       processors tasks trace fresh
       isListening isProcessing currentCode currentDescription history
       error liveUserText liveAiText view
       suspend finish emit alloc setState set_nextStartTime add_source
       set_stream set_contexts set_sessionPromise set_scriptProcessor
       set_session set_processors set_tasks
       setLiveUserText setLiveAiText setProcessing setSnippet
       setKernelOverload setListening setMicrophoneDenied setNotListening]
    in *.

Lemma schedule_app tr1 tr2 :
  schedule (tr1 ++ tr2) = schedule tr1 ++ schedule tr2.
Proof.
  induction tr1 as [|e tr1 IH]; simpl; [done|].
  destruct e; simpl; by rewrite ?IH.
Qed.

Lemma toolResponses_app tr1 tr2 :
  toolResponses (tr1 ++ tr2) = toolResponses tr1 ++ toolResponses tr2.
Proof.
  induction tr1 as [|e tr1 IH]; simpl; [done|].
  destruct e; simpl; by rewrite ?IH.
Qed.

Lemma realtimeInputs_app tr1 tr2 :
  realtimeInputs (tr1 ++ tr2) = realtimeInputs tr1 ++ realtimeInputs tr2.
Proof.
  induction tr1 as [|e tr1 IH]; simpl; [done|].
  destruct e; simpl; by rewrite ?IH.
Qed.

Lemma sameRefs_refl w : sameRefs w w.
Proof. by split. Qed.

Lemma sameRefs_trans w1 w2 w3 :
  sameRefs w1 w2 -> sameRefs w2 w3 -> sameRefs w1 w3.
Proof. intros [] []. split; congruence. Qed.

Lemma sameRefs_setState f w : sameRefs w (setState f w).
Proof. by split. Qed.

Lemma toolLoop_sameRefs fcs w : sameRefs w (toolLoop fcs w).
Proof.
  revert w. induction fcs as [|fc rest IH]; intros w; simpl.
  - apply sameRefs_refl.
  - case_bool_decide; [|apply IH].
    destruct (fc_args fc); [|apply sameRefs_refl].
    split; fields; try done;
      rewrite ?schedule_app, ?toolResponses_app, ?realtimeInputs_app;
      cbn [schedule toolResponses realtimeInputs]; by rewrite ?app_nil_r.
Qed.

Lemma afterAudio_sameRefs message w : sameRefs w (afterAudio message w).
Proof.
  unfold afterAudio.
  repeat match goal with
         | |- context [match ?x with _ => _ end] => destruct x
         end;
    repeat first
      [ apply sameRefs_refl
      | eapply sameRefs_trans; [|apply toolLoop_sameRefs]
      | eapply sameRefs_trans; [|apply sameRefs_setState] ].
Qed.

(** The snippet history is written by [setSnippet] alone. *)
Lemma toolLoop_history fcs w :
  history (app (toolLoop fcs w)) = history (app w).
Proof.
  revert w. induction fcs as [|fc rest IH]; intros w; simpl; [done|].
  case_bool_decide; [|apply IH]. by destruct (fc_args fc).
Qed.

Lemma duration_nonneg b : (0 <= duration b)%Z.
Proof. unfold duration. lia. Qed.

Lemma deliver_scheduled w ctx a :
  outAudioContextRef w = Some ctx ->
  carriesAudio (arr_message a) = true ->
  exists w',
    deliver w a = Some w'
    /\ outAudioContextRef w' = Some ctx
    /\ nextStartTimeRef w'
       = (Z.max (nextStartTimeRef w) (arr_now a) + duration (arr_buffer a))%Z
    /\ schedule (trace w')
       = schedule (trace w)
         ++ [(Z.max (nextStartTimeRef w) (arr_now a), duration (arr_buffer a))]
    /\ sourcesRef w' = {[S (fresh w)]} ∪ sourcesRef w.
Proof.
  intros Hctx Haudio. unfold deliver, carriesAudio in *. simpl.
  unfold handleMessage.
  destruct (audioData (arr_message a)) as [audio|]; [|done].
  rewrite Haudio, Hctx.
  set (w1 := suspend _ _).
  assert (Htask : tasks w1 !! fresh w
                  = Some (AwaitDecode (arr_message a) ctx)).
  { subst w1. fields. apply lookup_insert_eq. }
  rewrite Htask. eexists. split; [reflexivity|].
  unfold resumeDecode.
  match goal with
  | |- context [afterAudio ?m ?w0] =>
      destruct (afterAudio_sameRefs m w0) as [_ Hout _ Hnst Hsrc _ _ _ _ Hsch _ _]
  end.
  rewrite Hout, Hnst, Hsch, Hsrc. subst w1. fields.
  rewrite schedule_app. done.
Qed.

Lemma deliverAll_scheduled arrivals : forall w ctx,
  outAudioContextRef w = Some ctx ->
  Forall (fun a => carriesAudio (arr_message a) = true) arrivals ->
  exists w',
    deliverAll w arrivals = Some w'
    /\ outAudioContextRef w' = Some ctx
    /\ nextStartTimeRef w' = specCursor (nextStartTimeRef w) arrivals
    /\ schedule (trace w')
       = schedule (trace w) ++ specSchedule (nextStartTimeRef w) arrivals.
Proof.
  induction arrivals as [|a rest IH]; intros w ctx Hctx Hall; simpl.
  - exists w. by rewrite app_nil_r.
  - inversion Hall as [|? ? Ha Hrest]; subst.
    destruct (deliver_scheduled w ctx a Hctx Ha)
      as (w1 & Hrun & Hctx1 & Hnst1 & Hsch1 & _).
    rewrite Hrun.
    destruct (IH w1 ctx Hctx1 Hrest) as (w' & Hall' & Hctx' & Hnst' & Hsch').
    exists w'. rewrite Hall', Hnst', Hsch', Hsch1, Hnst1, <- app_assoc.
    done.
Qed.

(** The cursor never moves back. *)
Lemma specCursor_mono arrivals : forall t, (t <= specCursor t arrivals)%Z.
Proof.
  induction arrivals as [|a rest IH]; intros t; simpl; [lia|].
  pose proof (duration_nonneg (arr_buffer a)).
  etrans; [|apply IH]. lia.
Qed.

(** Every start in the spec's schedule is at or after the cursor it was
    computed from. *)
Lemma specSchedule_lower arrivals : forall t i s d,
  specSchedule t arrivals !! i = Some (s, d) -> (t <= s)%Z.
Proof.
  induction arrivals as [|a rest IH]; intros t i s d; simpl; [done|].
  pose proof (duration_nonneg (arr_buffer a)).
  destruct i as [|i]; simpl.
  - intros [= <- <-]. lia.
  - intros Hi. apply IH in Hi. lia.
Qed.

Lemma specSchedule_chain arrivals : forall t i s d s' d',
  specSchedule t arrivals !! i = Some (s, d) ->
  specSchedule t arrivals !! S i = Some (s', d') ->
  (s + d <= s')%Z /\ (s <= s')%Z.
Proof.
  induction arrivals as [|a rest IH]; intros t i s d s' d'; simpl; [done|].
  pose proof (duration_nonneg (arr_buffer a)) as Hd.
  destruct i as [|i].
  - intros [= <- <-] Hnext. apply specSchedule_lower in Hnext. lia.
  - intros Hi Hnext. exact (IH _ _ _ _ _ _ Hi Hnext).
Qed.

(** C1: buffers that arrive in order, at any clock readings, are started
    in that order, each at [max(nextStartTime, now)], and the cursor moves
    to that start plus the buffer's duration; the start times never
    decrease and each buffer starts no earlier than the end of the one
    before it. *)
Theorem playback_monotone (w : World) (ctx : nat) (arrivals : list Arrival) :
  outAudioContextRef w = Some ctx ->
  Forall (fun a => carriesAudio (arr_message a) = true) arrivals ->
  exists w',
    deliverAll w arrivals = Some w'
    /\ schedule (trace w')
       = schedule (trace w) ++ specSchedule (nextStartTimeRef w) arrivals
    /\ nextStartTimeRef w' = specCursor (nextStartTimeRef w) arrivals
    /\ (nextStartTimeRef w <= nextStartTimeRef w')%Z
    /\ forall i s d s' d',
         specSchedule (nextStartTimeRef w) arrivals !! i = Some (s, d) ->
         specSchedule (nextStartTimeRef w) arrivals !! S i = Some (s', d') ->
         (s + d <= s')%Z /\ (s <= s')%Z.
Proof.
  intros Hctx Hall.
  destruct (deliverAll_scheduled arrivals w ctx Hctx Hall)
    as (w' & Hrun & _ & Hnst & Hsch).
  exists w'. split; [done|]. split; [done|]. split; [done|]. split.
  - rewrite Hnst. apply specCursor_mono.
  - intros i s d s' d'. apply specSchedule_chain.
Qed.

(** *** Back-pressure *)

Lemma specSchedule_pressed_head arrivals t s d :
  pressed t arrivals ->
  specSchedule t arrivals !! 0 = Some (s, d) -> s = t.
Proof.
  destruct arrivals as [|a rest]; simpl; [done|].
  intros [Hnow _] [= <- _]. lia.
Qed.

Lemma specSchedule_pressed arrivals : forall t i s d s' d',
  pressed t arrivals ->
  specSchedule t arrivals !! i = Some (s, d) ->
  specSchedule t arrivals !! S i = Some (s', d') ->
  s' = (s + d)%Z.
Proof.
  induction arrivals as [|a rest IH]; intros t i s d s' d'; simpl; [done|].
  intros [Hnow Hrest].
  replace (Z.max t (arr_now a)) with t by lia.
  destruct i as [|i].
  - intros [= <- <-] Hnext.
    by apply specSchedule_pressed_head in Hnext.
  - intros Hi Hnext. exact (IH _ _ _ _ _ _ Hrest Hi Hnext).
Qed.

Lemma deliverAll_pressed arrivals : forall w ctx,
  outAudioContextRef w = Some ctx ->
  Forall (fun a => carriesAudio (arr_message a) = true) arrivals ->
  (forall k a wk,
     arrivals !! k = Some a ->
     deliverAll w (take k arrivals) = Some wk ->
     (arr_now a <= nextStartTimeRef wk)%Z) ->
  pressed (nextStartTimeRef w) arrivals.
Proof.
  induction arrivals as [|a rest IH]; intros w ctx Hctx Hall Hnow; simpl;
    [done|].
  inversion Hall as [|? ? Ha Hrest]; subst.
  assert (Hfirst : (arr_now a <= nextStartTimeRef w)%Z)
    by exact (Hnow 0 a w eq_refl eq_refl).
  split; [done|].
  destruct (deliver_scheduled w ctx a Hctx Ha)
    as (w1 & Hrun & Hctx1 & Hnst1 & _).
  replace (nextStartTimeRef w + duration (arr_buffer a))%Z
    with (nextStartTimeRef w1) by lia.
  apply (IH w1 ctx Hctx1 Hrest).
  intros k a' wk Hk Hrun'.
  apply (Hnow (S k) a' wk Hk). simpl. by rewrite Hrun.
Qed.

(** C8: when every buffer arrives at a clock reading that is not past the
    cursor, the buffers are started back to back: each start is exactly
    the start of the one before plus its duration, and the first one
    starts at the cursor. *)
Theorem gap_free_under_back_pressure (w : World) (ctx : nat)
    (arrivals : list Arrival) :
  outAudioContextRef w = Some ctx ->
  Forall (fun a => carriesAudio (arr_message a) = true) arrivals ->
  (forall k a wk,
     arrivals !! k = Some a ->
     deliverAll w (take k arrivals) = Some wk ->
     (arr_now a <= nextStartTimeRef wk)%Z) ->
  exists w' new,
    deliverAll w arrivals = Some w'
    /\ schedule (trace w') = schedule (trace w) ++ new
    /\ new.*2 = (fun a => duration (arr_buffer a)) <$> arrivals
    /\ (forall s d, new !! 0 = Some (s, d) -> s = nextStartTimeRef w)
    /\ forall i s d s' d',
         new !! i = Some (s, d) -> new !! S i = Some (s', d') ->
         s' = (s + d)%Z.
Proof.
  intros Hctx Hall Hnow.
  pose proof (deliverAll_pressed arrivals w ctx Hctx Hall Hnow) as Hpressed.
  destruct (deliverAll_scheduled arrivals w ctx Hctx Hall)
    as (w' & Hrun & _ & _ & Hsch).
  exists w', (specSchedule (nextStartTimeRef w) arrivals).
  split; [done|]. split; [done|]. split.
  { clear. generalize (nextStartTimeRef w).
    induction arrivals as [|a rest IH]; intros t; simpl; [done|].
    by rewrite IH. }
  split.
  - intros s d. by apply specSchedule_pressed_head.
  - intros i s d s' d'. by apply specSchedule_pressed.
Qed.

(** ** Transcripts *)










(** ** The snippet history *)

(** C10: when a generated snippet is recorded, the history becomes the
    new snippet followed by the old entries, cut after fifteen: it has at
    most fifteen entries and the new snippet is the first. *)
Theorem history_bounded (w : World) (t : nat) (fc : FunctionCall) (a : Args)
    (rest : list FunctionCall) (response : GenerateContentResponse)
    (idNow stampNow : Z) :
  tasks w !! t = Some (AwaitGenerate fc a rest) ->
  exists w',
    step w (Generated t (Normal response) idNow stampNow) = Some w'
    /\ history (app w')
       = take 15 (newSnippet a response idNow stampNow :: history (app w))
    /\ length (history (app w')) <= 15
    /\ head (history (app w')) = Some (newSnippet a response idNow stampNow).
Proof.
  intros Ht. cbn [step]. rewrite Ht. eexists. split; [reflexivity|].
  assert (Hh : history (app (resumeGenerate fc a rest (Normal response)
                               idNow stampNow (finish t w)))
               = take 15 (newSnippet a response idNow stampNow
                            :: history (app w))).
  { unfold resumeGenerate.
    destruct (sessionPromiseRef _); [|rewrite toolLoop_history]; by fields. }
  rewrite Hh. split; [done|]. split; [|done].
  rewrite length_take. lia.
Qed.

(** ** Starting a session *)

(** C9: when the capture device cannot be acquired, [startSession] only
    records the error.  A session that was not listening is still not
    listening; no connection is made, no script processor exists that was
    not there before, nothing is sent and the refs of the session are not
    written. *)
Theorem device_denial (w : World) (resumed : Completion unit) :
  isListening (app w) = false ->
  exists w',
    step w (ClickStart Throw resumed) = Some w'
    /\ error (app w') = Some "Microphone permission denied"
    /\ isListening (app w') = false
    /\ sessions w' = sessions w
    /\ processors w' = processors w
    /\ trace w' = trace w
    /\ sessionPromiseRef w' = sessionPromiseRef w
    /\ scriptProcessorRef w' = scriptProcessorRef w
    /\ streamRef w' = streamRef w
    /\ audioContextRef w' = audioContextRef w
    /\ outAudioContextRef w' = outAudioContextRef w
    /\ tasks w' = tasks w.
Proof.
  intros Hidle. eexists. split; [reflexivity|].
  unfold startSession. fields. by rewrite Hidle.
Qed.

(** ** Stopping and starting *)

Lemma stopSession_trace w :
  trace (stopSession w) = trace w ++ teardownEffects w.
Proof.
  unfold stopSession, teardownEffects.
  destruct (scriptProcessorRef w); fields;
    destruct (streamRef w); fields;
    destruct (audioContextRef w); fields;
    destruct (outAudioContextRef w); fields;
    rewrite <- ?app_assoc, ?app_nil_r; reflexivity.
Qed.

Lemma teardownEffects_teardown w :
  forallb isTeardown (teardownEffects w) = true.
Proof.
  unfold teardownEffects.
  by destruct (scriptProcessorRef w), (streamRef w), (audioContextRef w),
    (outAudioContextRef w).
Qed.

(** What [stopSession] leaves as it was. *)
Lemma stopSession_keeps w :
  sessionPromiseRef (stopSession w) = sessionPromiseRef w
  /\ sessions (stopSession w) = sessions w
  /\ tasks (stopSession w) = tasks w
  /\ fresh (stopSession w) = fresh w
  /\ nextStartTimeRef (stopSession w) = nextStartTimeRef w
  /\ sourcesRef (stopSession w) = sourcesRef w
  /\ outAudioContextRef (stopSession w) = outAudioContextRef w
  /\ app (stopSession w) = setNotListening (app w).
Proof.
  unfold stopSession.
  destruct (scriptProcessorRef w) eqn:?; fields;
    destruct (streamRef w) eqn:?; fields;
    destruct (audioContextRef w) eqn:?; fields;
    destruct (outAudioContextRef w) eqn:?; fields; done.
Qed.

Lemma teardown_toolResponses tr :
  forallb isTeardown tr = true -> toolResponses tr = [].
Proof.
  induction tr as [|e tr IH]; simpl; [done|].
  destruct e; simpl; try done; exact IH.
Qed.

Lemma teardown_schedule tr :
  forallb isTeardown tr = true -> schedule tr = [].
Proof.
  induction tr as [|e tr IH]; simpl; [done|].
  destruct e; simpl; try done; exact IH.
Qed.

Lemma startSession_cursor media resumed w :
  nextStartTimeRef (startSession media resumed w) = nextStartTimeRef w
  /\ schedule (trace (startSession media resumed w)) = schedule (trace w)
  /\ sourcesRef (startSession media resumed w) = sourcesRef w.
Proof.
  unfold startSession. destruct media, resumed; fields;
    rewrite ?schedule_app, ?app_nil_r; done.
Qed.

(** ** Tool invocations *)

Lemma handleMessage_toolMessage fc a now w :
  fc_name fc = Some "generate_code" ->
  fc_args fc = Some a ->
  handleMessage (toolMessage [fc]) now w
  = suspend (AwaitGenerate fc a [])
      (emit (GenerateContent (generateRequest a))
         (setState (setProcessing (description a)) w)).
Proof.
  intros Hname Hargs. unfold handleMessage, afterAudio.
  cbn [audioData toolMessage serverContent truthy toolCall functionCalls
       toolLoop].
  by rewrite bool_decide_eq_true_2, Hargs.
Qed.

(** The job succeeds and the stored session promise is resolved. *)
Lemma run_success w fc a s response now idNow stampNow :
  fc_name fc = Some "generate_code" ->
  fc_args fc = Some a ->
  sessionPromiseRef w = Some s ->
  sessions w !! s = Some Resolved ->
  exists w',
    run w [Message (toolMessage [fc]) now;
           Generated (fresh w) (Normal response) idNow stampNow;
           SessionSettled (S (fresh w))] = Some w'
    /\ trace w'
       = trace w ++ [GenerateContent (generateRequest a);
                     SendToolResponse s (compiledResponse fc)]
    /\ app w'
       = setSnippet (orDefault (responseText response) "// Synthesis failed")
           (newSnippet a response idNow stampNow)
           (setProcessing (description a) (app w))
    /\ tasks w' !! fresh w = None
    /\ tasks w' !! S (fresh w) = None.
Proof.
  intros Hname Hargs Hs Hopen.
  cbn [run step]. rewrite (handleMessage_toolMessage fc a) by done.
  fields. rewrite lookup_insert_eq.
  unfold resumeGenerate. fields. rewrite Hs. fields.
  rewrite lookup_insert_eq, Hopen.
  eexists. split; [reflexivity|].
  unfold resumeSession. cbn [toolLoop]. fields.
  rewrite <- app_assoc. split; [done|].
  split; [done|].
  change (1 + fresh w) with (S (fresh w)).
  rewrite lookup_delete_ne, lookup_insert_ne, lookup_delete_eq by lia.
  by rewrite lookup_delete_eq.
Qed.

(** The job fails. *)
Lemma run_failure w fc a now idNow stampNow :
  fc_name fc = Some "generate_code" ->
  fc_args fc = Some a ->
  exists w',
    run w [Message (toolMessage [fc]) now;
           Generated (fresh w) Throw idNow stampNow] = Some w'
    /\ trace w' = trace w ++ [GenerateContent (generateRequest a)]
    /\ app w' = setKernelOverload (setProcessing (description a) (app w))
    /\ tasks w' !! fresh w = None.
Proof.
  intros Hname Hargs.
  cbn [run step]. rewrite (handleMessage_toolMessage fc a) by done.
  fields. rewrite lookup_insert_eq.
  eexists. split; [reflexivity|].
  unfold resumeGenerate. cbn [toolLoop]. fields.
  split; [done|]. split; [done|]. by rewrite lookup_delete_eq.
Qed.

(** [stopSession] is called while the job is in flight. *)
Lemma run_orphan w fc a s response now idNow stampNow :
  fc_name fc = Some "generate_code" ->
  fc_args fc = Some a ->
  sessionPromiseRef w = Some s ->
  sessions w !! s = Some Resolved ->
  exists w',
    run w [Message (toolMessage [fc]) now;
           ClickStop;
           Generated (fresh w) (Normal response) idNow stampNow;
           SessionSettled (S (fresh w))] = Some w'
    /\ trace w'
       = trace w ++ [GenerateContent (generateRequest a)]
         ++ teardownEffects w
         ++ [SendToolResponse s (compiledResponse fc)]
    /\ app w'
       = setSnippet (orDefault (responseText response) "// Synthesis failed")
           (newSnippet a response idNow stampNow)
           (setNotListening (setProcessing (description a) (app w))).
Proof.
  intros Hname Hargs Hs Hopen.
  cbn [run step]. rewrite (handleMessage_toolMessage fc a) by done.
  set (w1 := suspend _ _).
  destruct (stopSession_keeps w1) as (Hp & Hss & Hts & Hf & _ & _ & _ & Happ).
  pose proof (stopSession_trace w1) as Htr.
  assert (Htd : teardownEffects w1 = teardownEffects w) by reflexivity.
  rewrite Htd in Htr. clear Htd.
  remember (stopSession w1) as w2 eqn:E. clear E. subst w1. fields.
  rewrite Hts, lookup_insert_eq.
  unfold resumeGenerate. fields. rewrite Hp, Hs. fields.
  rewrite Hf, lookup_insert_eq, Hss, Hopen.
  eexists. split; [reflexivity|].
  unfold resumeSession. cbn [toolLoop]. fields.
  rewrite Htr, Happ, <- !app_assoc. done.
Qed.

(** ** Tool calls, end to end *)

(** C2, amended: a [generate_code] call whose job succeeds, on a session
    whose promise is stored and resolved, is answered by exactly one tool
    response.  The response echoes the call's id and name and carries the
    fixed result [Compiled.], not the generated text.  The text (or
    [// Synthesis failed] when it is empty) becomes [currentCode] and the
    code of the newest history entry, and [isProcessing] ends false. *)
Theorem tool_round_trip (w : World) (fc : FunctionCall) (a : Args) (s : nat)
    (response : GenerateContentResponse) (now idNow stampNow : Z) :
  fc_name fc = Some "generate_code" ->
  fc_args fc = Some a ->
  sessionPromiseRef w = Some s ->
  sessions w !! s = Some Resolved ->
  exists w',
    run w [Message (toolMessage [fc]) now;
           Generated (fresh w) (Normal response) idNow stampNow;
           SessionSettled (S (fresh w))] = Some w'
    /\ toolResponses (trace w')
       = toolResponses (trace w)
         ++ [(s, {| fr_id := fc_id fc; fr_name := fc_name fc;
                    fr_result := "Compiled." |})]
    /\ currentCode (app w')
       = orDefault (responseText response) "// Synthesis failed"
    /\ head (history (app w')) = Some (newSnippet a response idNow stampNow)
    /\ cs_code (newSnippet a response idNow stampNow) = currentCode (app w')
    /\ isProcessing (app w') = false
    /\ error (app w') = error (app w)
    /\ tasks w' !! fresh w = None
    /\ tasks w' !! S (fresh w) = None.
Proof.
  intros Hname Hargs Hs Hopen.
  destruct (run_success w fc a s response now idNow stampNow
              Hname Hargs Hs Hopen) as (w' & Hrun & Htr & Happ & Ht1 & Ht2).
  exists w'. split; [done|].
  rewrite Htr, Happ, toolResponses_app. cbn [toolResponses]. fields.
  done.
Qed.

(** C3, amended: [stopSession] called between the dispatch of a call and
    the end of its job changes nothing for the response.  The session
    promise stays in its ref and the session is not closed, so when the job
    ends the one tool response is sent as it would have been; the error
    field is not written. *)
Theorem orphaned_result_still_sent (w : World) (fc : FunctionCall) (a : Args)
    (s : nat) (response : GenerateContentResponse) (now idNow stampNow : Z) :
  fc_name fc = Some "generate_code" ->
  fc_args fc = Some a ->
  sessionPromiseRef w = Some s ->
  sessions w !! s = Some Resolved ->
  exists w',
    run w [Message (toolMessage [fc]) now;
           ClickStop;
           Generated (fresh w) (Normal response) idNow stampNow;
           SessionSettled (S (fresh w))] = Some w'
    /\ toolResponses (trace w')
       = toolResponses (trace w)
         ++ [(s, {| fr_id := fc_id fc; fr_name := fc_name fc;
                    fr_result := "Compiled." |})]
    /\ sessionPromiseRef (stopSession w) = Some s
    /\ sessions (stopSession w) !! s = Some Resolved
    /\ isListening (app w') = false
    /\ error (app w') = error (app w).
Proof.
  intros Hname Hargs Hs Hopen.
  destruct (run_orphan w fc a s response now idNow stampNow
              Hname Hargs Hs Hopen) as (w' & Hrun & Htr & Happ).
  destruct (stopSession_keeps w) as (Hp & Hss & _).
  exists w'. split; [done|].
  rewrite Htr, Happ, Hp, Hss, !toolResponses_app.
  rewrite (teardown_toolResponses _ (teardownEffects_teardown w)).
  cbn [toolResponses]. fields. done.
Qed.

(** C4, amended: an accepted call gets at most one tool response.  When
    its job succeeds, on a stored and resolved session promise, exactly one
    is sent.  When its job fails none is sent: the handler ends there,
    with the error [Kernel overload] and [isProcessing] false. *)
Theorem one_response_or_none (w : World) (fc : FunctionCall) (a : Args)
    (s : nat) (now idNow stampNow : Z) :
  fc_name fc = Some "generate_code" ->
  fc_args fc = Some a ->
  sessionPromiseRef w = Some s ->
  sessions w !! s = Some Resolved ->
  (forall response, exists w',
     run w [Message (toolMessage [fc]) now;
            Generated (fresh w) (Normal response) idNow stampNow;
            SessionSettled (S (fresh w))] = Some w'
     /\ toolResponses (trace w')
        = toolResponses (trace w) ++ [(s, compiledResponse fc)]
     /\ tasks w' !! fresh w = None
     /\ tasks w' !! S (fresh w) = None)
  /\ exists w',
       run w [Message (toolMessage [fc]) now;
              Generated (fresh w) Throw idNow stampNow] = Some w'
       /\ toolResponses (trace w') = toolResponses (trace w)
       /\ tasks w' !! fresh w = None
       /\ error (app w') = Some "Kernel overload"
       /\ isProcessing (app w') = false.
Proof.
  intros Hname Hargs Hs Hopen. split.
  - intros response.
    destruct (run_success w fc a s response now idNow stampNow
                Hname Hargs Hs Hopen) as (w' & Hrun & Htr & _ & Ht1 & Ht2).
    exists w'. split; [done|]. by rewrite Htr, toolResponses_app.
  - destruct (run_failure w fc a now idNow stampNow Hname Hargs)
      as (w' & Hrun & Htr & Happ & Ht).
    exists w'. split; [done|].
    rewrite Htr, Happ, toolResponses_app. cbn [toolResponses]. fields.
    by rewrite app_nil_r.
Qed.

(** ** Stopping and restarting, end to end *)

(** C6, amended: [startSession] does not write the playback cursor.  The
    cursor keeps the value the earlier session left, and the first buffer
    of the new session is started at the larger of that value and the
    clock reading of its arrival. *)
Theorem start_keeps_cursor (w : World) (media resumed : Completion unit)
    (a : Arrival) :
  carriesAudio (arr_message a) = true ->
  nextStartTimeRef (startSession media resumed w) = nextStartTimeRef w
  /\ exists w',
       run w [ClickStart ok ok;
              Message (arr_message a) (arr_now a);
              Decoded (4 + fresh w) (Normal (arr_buffer a))] = Some w'
       /\ schedule (trace w')
          = schedule (trace w)
            ++ [(Z.max (nextStartTimeRef w) (arr_now a),
                 duration (arr_buffer a))].
Proof.
  intros Haudio. split; [apply startSession_cursor|].
  destruct (startSession_cursor ok ok w) as (Hnst & Hsch & _).
  assert (Hfresh : fresh (startSession ok ok w) = 4 + fresh w).
  { unfold startSession, ok. fields. reflexivity. }
  assert (Hctx : outAudioContextRef (startSession ok ok w)
                 = Some (S (S (fresh w)))).
  { unfold startSession, ok. fields. reflexivity. }
  destruct (deliver_scheduled (startSession ok ok w) (S (S (fresh w))) a
              Hctx Haudio) as (w' & Hrun & _ & _ & Hsch' & _).
  exists w'. unfold deliver in Hrun. rewrite Hfresh in Hrun.
  split; [exact Hrun|]. by rewrite Hsch', Hsch, Hnst.
Qed.

(** C7, amended: [stopSession] disconnects the script processor, stops the
    capture tracks and closes the two audio contexts, by the refs that are
    set.  It makes no call on a playback source and leaves [sourcesRef] as
    it was. *)
Theorem stop_keeps_sources (w : World) :
  exists w',
    step w ClickStop = Some w'
    /\ sourcesRef w' = sourcesRef w
    /\ trace w' = trace w ++ teardownEffects w
    /\ forallb isTeardown (teardownEffects w) = true
    /\ schedule (trace w') = schedule (trace w).
Proof.
  exists (stopSession w). split; [done|].
  destruct (stopSession_keeps w) as (_ & _ & _ & _ & _ & Hsrc & _).
  rewrite stopSession_trace, schedule_app.
  rewrite (teardown_schedule _ (teardownEffects_teardown w)), app_nil_r.
  split; [done|]. split; [done|]. split; [|done].
  apply teardownEffects_teardown.
Qed.

(** ** Any run of the event loop *)

Lemma chainedFrom_le l : forall t t', chainedFrom t l t' -> (t <= t')%Z.
Proof.
  induction l as [|[s d] l IH]; intros t t'; simpl; [done|].
  intros (Hs & Hd & Hl). apply IH in Hl. lia.
Qed.

Lemma chainedFrom_app l1 : forall l2 t t1 t2,
  chainedFrom t l1 t1 -> chainedFrom t1 l2 t2 -> chainedFrom t (l1 ++ l2) t2.
Proof.
  induction l1 as [|[s d] l1 IH]; intros l2 t t1 t2; simpl.
  - intros Hle H2. destruct l2 as [|[s2 d2] l2]; simpl in *; [lia|].
    destruct H2 as (? & ? & ?). split; [lia|done].
  - intros (Hs & Hd & Hl) H2. split; [done|]. split; [done|].
    by apply (IH l2 _ t1).
Qed.

Lemma chainedFrom_lower l : forall t t' i s d,
  chainedFrom t l t' -> l !! i = Some (s, d) -> (t <= s)%Z.
Proof.
  induction l as [|[s0 d0] l IH]; intros t t' i s d; simpl; [done|].
  intros (Hs & Hd & Hl). destruct i as [|i]; simpl.
  - intros [= <- <-]. done.
  - intros Hi. pose proof (IH _ _ _ _ _ Hl Hi). lia.
Qed.

Lemma chainedFrom_chain l : forall t t' i s d s' d',
  chainedFrom t l t' ->
  l !! i = Some (s, d) -> l !! S i = Some (s', d') ->
  (s + d <= s')%Z /\ (s <= s')%Z.
Proof.
  induction l as [|[s0 d0] l IH]; intros t t' i s d s' d'; simpl; [done|].
  intros (Hs & Hd & Hl). destruct i as [|i].
  - intros [= <- <-] Hnext.
    pose proof (chainedFrom_lower _ _ _ _ _ _ Hl Hnext). lia.
  - intros Hi Hnext. exact (IH _ _ _ _ _ _ _ Hl Hi Hnext).
Qed.

Lemma advances_refl w : advances w w.
Proof.
  split; [|done|done]. exists []. rewrite app_nil_r. split; [done|].
  simpl. lia.
Qed.

Lemma advances_trans w1 w2 w3 :
  advances w1 w2 -> advances w2 w3 -> advances w1 w3.
Proof.
  intros [(n1 & Hs1 & Hc1) Hsrc1 Hh1] [(n2 & Hs2 & Hc2) Hsrc2 Hh2].
  split; [|set_solver|auto].
  exists (n1 ++ n2). rewrite Hs2, Hs1, app_assoc. split; [done|].
  by apply (chainedFrom_app _ _ _ (nextStartTimeRef w2)).
Qed.

(** A piece of code that writes neither the cursor nor the schedule nor
    the sources, and keeps the history or cuts it to the bound. *)
Lemma advances_same w w' :
  nextStartTimeRef w' = nextStartTimeRef w ->
  schedule (trace w') = schedule (trace w) ->
  sourcesRef w' = sourcesRef w ->
  (history (app w') = history (app w) \/ length (history (app w')) <= 15) ->
  advances w w'.
Proof.
  intros Hn Hs Hsrc Hh. split.
  - exists []. rewrite app_nil_r, Hn. split; [done|]. simpl. lia.
  - by rewrite Hsrc.
  - destruct Hh as [-> | ?]; done.
Qed.

Lemma toolLoop_advances fcs w : advances w (toolLoop fcs w).
Proof.
  destruct (toolLoop_sameRefs fcs w).
  apply advances_same; try done. left. apply toolLoop_history.
Qed.

Lemma afterAudio_history message w :
  history (app (afterAudio message w)) = history (app w).
Proof.
  unfold afterAudio.
  repeat match goal with
         | |- context [match ?x with _ => _ end] => destruct x
         end;
    rewrite ?toolLoop_history; reflexivity.
Qed.

Lemma afterAudio_advances message w : advances w (afterAudio message w).
Proof.
  destruct (afterAudio_sameRefs message w).
  apply advances_same; try done. left. apply afterAudio_history.
Qed.

Lemma handleMessage_advances message now w :
  advances w (handleMessage message now w).
Proof.
  unfold handleMessage.
  destruct (audioData message) as [audio|]; [|apply advances_refl].
  destruct (truthy audio); [|apply afterAudio_advances].
  destruct (outAudioContextRef w); [|apply afterAudio_advances].
  split; fields; [|done|done].
  exists []. rewrite app_nil_r. split; [done|]. simpl. lia.
Qed.

Lemma finish_advances t w : advances w (finish t w).
Proof. apply advances_same; fields; auto. Qed.

Lemma resumeDecode_advances message ctx r w :
  advances w (resumeDecode message ctx r w).
Proof.
  unfold resumeDecode. destruct r as [buffer|]; [|apply advances_refl].
  eapply advances_trans; [|apply afterAudio_advances].
  split; fields; [|set_solver|done].
  exists [(nextStartTimeRef w, duration buffer)].
  rewrite schedule_app. split; [done|]. simpl.
  pose proof (duration_nonneg buffer). lia.
Qed.

Lemma resumeGenerate_advances fc a rest r idNow stampNow w :
  advances w (resumeGenerate fc a rest r idNow stampNow w).
Proof.
  unfold resumeGenerate. destruct r as [response|].
  - fields. destruct (sessionPromiseRef w).
    + apply advances_same; fields; try done.
      right. rewrite length_take. lia.
    + eapply advances_trans; [|apply toolLoop_advances].
      apply advances_same; fields; try done.
      right. rewrite length_take. lia.
  - eapply advances_trans; [|apply toolLoop_advances].
    apply advances_same; fields; auto.
Qed.

Lemma resumeSession_advances fc rest s r w :
  advances w (resumeSession fc rest s r w).
Proof.
  unfold resumeSession. destruct r as [[]|];
    (eapply advances_trans; [|apply toolLoop_advances]);
    apply advances_same; fields; rewrite ?schedule_app, ?app_nil_r; auto.
Qed.

Lemma startSession_advances media resumed w :
  advances w (startSession media resumed w).
Proof.
  destruct (startSession_cursor media resumed w) as (Hn & Hs & Hsrc).
  apply advances_same; try done. left.
  unfold startSession. by destruct media, resumed.
Qed.

Lemma stopSession_advances w : advances w (stopSession w).
Proof.
  destruct (stopSession_keeps w) as (_ & _ & _ & _ & Hn & Hsrc & _ & Happ).
  apply advances_same; try done.
  - rewrite stopSession_trace, schedule_app.
    by rewrite (teardown_schedule _ (teardownEffects_teardown w)), app_nil_r.
  - left. by rewrite Happ.
Qed.

Lemma step_advances w e w' : step w e = Some w' -> advances w w'.
Proof.
  destruct e; cbn [step]; intros Hstep;
    repeat match type of Hstep with
           | match ?x with _ => _ end = _ => destruct x; try discriminate
           end;
    injection Hstep as <-.
  - apply startSession_advances.
  - apply stopSession_advances.
  - unfold onopen. apply advances_same; fields; auto.
  - apply advances_same; fields; auto.
  - unfold onclose. apply advances_same; fields; auto.
  - apply handleMessage_advances.
  - eapply advances_trans; [apply finish_advances|].
    apply resumeDecode_advances.
  - eapply advances_trans; [apply finish_advances|].
    apply resumeGenerate_advances.
  - eapply advances_trans; [apply finish_advances|].
    apply (resumeSession_advances _ _ _ (Normal ())).
  - eapply advances_trans; [apply finish_advances|].
    apply (resumeSession_advances fc rest session Throw).
  - unfold onaudioprocess.
    repeat match goal with
           | |- context [match ?x with _ => _ end] => destruct x
           end;
      apply advances_same; fields; rewrite ?schedule_app, ?app_nil_r; auto.
Qed.

Lemma run_advances es : forall w w', run w es = Some w' -> advances w w'.
Proof.
  induction es as [|e es IH]; intros w w'; simpl.
  - intros [= <-]. apply advances_refl.
  - destruct (step w e) as [w1|] eqn:Hstep; [|done].
    intros Hrun. eapply advances_trans; [|by apply IH].
    by apply (step_advances w e).
Qed.

(** Whatever the events and their order - handlers interleaved at their
    awaits, sessions stopped and restarted - no two scheduled buffers
    overlap and the start times never decrease. *)
Lemma run_schedule_chained es w i s d s' d' :
  run initialWorld es = Some w ->
  schedule (trace w) !! i = Some (s, d) ->
  schedule (trace w) !! S i = Some (s', d') ->
  (s + d <= s')%Z /\ (s <= s')%Z.
Proof.
  intros Hrun. destruct (run_advances _ _ _ Hrun) as [(new & Hs & Hc) _ _].
  rewrite Hs. simpl. by eapply chainedFrom_chain.
Qed.

(** No event takes a source out of [sourcesRef]. *)
Lemma run_sources_grow es w w' :
  run w es = Some w' -> sourcesRef w ⊆ sourcesRef w'.
Proof. intros Hrun. by destruct (run_advances _ _ _ Hrun). Qed.

(** The history never has more than fifteen entries. *)
Lemma run_history_bounded es w :
  run initialWorld es = Some w -> length (history (app w)) <= 15.
Proof.
  intros Hrun. destruct (run_advances _ _ _ Hrun) as [_ _ Hh].
  apply Hh. simpl. lia.
Qed.

(** ** After a denied start *)

Lemma quiet_refl w : quiet w w.
Proof. by split. Qed.

Lemma quiet_trans w1 w2 w3 : quiet w1 w2 -> quiet w2 w3 -> quiet w1 w3.
Proof. intros [] []. split; congruence. Qed.

Lemma toolLoop_isListening fcs w :
  isListening (app (toolLoop fcs w)) = isListening (app w).
Proof.
  revert w. induction fcs as [|fc rest IH]; intros w; simpl; [done|].
  case_bool_decide; [|apply IH]. by destruct (fc_args fc).
Qed.

Lemma toolLoop_quiet fcs w : quiet w (toolLoop fcs w).
Proof.
  destruct (toolLoop_sameRefs fcs w). split; try done.
  apply toolLoop_isListening.
Qed.

Lemma afterAudio_quiet message w : quiet w (afterAudio message w).
Proof.
  destruct (afterAudio_sameRefs message w). split; try done.
  unfold afterAudio.
  repeat match goal with
         | |- context [match ?x with _ => _ end] => destruct x
         end;
    rewrite ?toolLoop_isListening; reflexivity.
Qed.

Lemma handleMessage_quiet message now w : quiet w (handleMessage message now w).
Proof.
  unfold handleMessage.
  destruct (audioData message) as [audio|]; [|apply quiet_refl].
  destruct (truthy audio); [|apply afterAudio_quiet].
  destruct (outAudioContextRef w); [|apply afterAudio_quiet].
  by split.
Qed.

Lemma resumeDecode_quiet message ctx r w :
  quiet w (resumeDecode message ctx r w).
Proof.
  unfold resumeDecode. destruct r as [buffer|]; [|apply quiet_refl].
  eapply quiet_trans; [|apply afterAudio_quiet].
  split; fields; rewrite ?realtimeInputs_app, ?app_nil_r; done.
Qed.

Lemma resumeGenerate_quiet fc a rest r idNow stampNow w :
  quiet w (resumeGenerate fc a rest r idNow stampNow w).
Proof.
  unfold resumeGenerate. destruct r as [response|].
  - fields. destruct (sessionPromiseRef w); [by split|].
    eapply quiet_trans; [|apply toolLoop_quiet]. by split.
  - eapply quiet_trans; [|apply toolLoop_quiet]. by split.
Qed.

Lemma resumeSession_quiet fc rest s r w :
  quiet w (resumeSession fc rest s r w).
Proof.
  unfold resumeSession. destruct r as [[]|];
    (eapply quiet_trans; [|apply toolLoop_quiet]);
    split; fields; rewrite ?realtimeInputs_app, ?app_nil_r; done.
Qed.

Lemma idle_quiet w w' : idle w -> quiet w w' -> idle w'.
Proof. intros [] []. split; congruence. Qed.

(** A turn of an idle component, other than a click on start, changes
    neither the sessions nor the processors, sends no audio and leaves the
    component not listening. *)
Lemma step_idle w e w' :
  idle w -> isClickStart e = false -> step w e = Some w' -> quiet w w'.
Proof.
  intros [Hs Hp Hl] Hne.
  destruct e; try discriminate Hne; cbn [step]; intros Hstep.
  - (* stop *)
    injection Hstep as <-.
    destruct (stopSession_keeps w) as (_ & Hss & _ & _ & _ & _ & _ & Happ).
    split.
    + done.
    + unfold stopSession.
      destruct (scriptProcessorRef w); fields;
        destruct (streamRef w); fields;
        destruct (audioContextRef w); fields;
        destruct (outAudioContextRef w); fields;
        rewrite ?Hp, ?delete_empty; done.
    + rewrite stopSession_trace, realtimeInputs_app.
      assert (Hnone : forall tr, forallb isTeardown tr = true ->
                                 realtimeInputs tr = []).
      { induction tr as [|e tr IH]; simpl; [done|].
        destruct e; simpl; try done; exact IH. }
      by rewrite (Hnone _ (teardownEffects_teardown w)), app_nil_r.
    + by rewrite Happ, Hl.
  - (* opened *)
    destruct (sessions w !! session) as [[]|] eqn:E; try discriminate.
    by destruct (Hs session).
  - (* connect failed *)
    destruct (sessions w !! session) as [[]|] eqn:E; try discriminate.
    by destruct (Hs session).
  - (* closed *)
    injection Hstep as <-. unfold onclose. split; fields; rewrite ?Hl; done.
  - (* message *)
    injection Hstep as <-. apply handleMessage_quiet.
  - (* decoded *)
    destruct (tasks w !! task) as [[]|]; try discriminate.
    injection Hstep as <-.
    eapply quiet_trans; [|apply resumeDecode_quiet]. by split.
  - (* generated *)
    destruct (tasks w !! task) as [[]|]; try discriminate.
    injection Hstep as <-.
    eapply quiet_trans; [|apply resumeGenerate_quiet]. by split.
  - (* session settled *)
    destruct (tasks w !! task) as [[]|]; try discriminate.
    destruct (sessions w !! session) as [[]|]; try discriminate;
      injection Hstep as <-.
    + eapply quiet_trans;
        [|apply (resumeSession_quiet fc rest session (Normal ()))].
      by split.
    + eapply quiet_trans;
        [|apply (resumeSession_quiet fc rest session Throw)].
      by split.
  - (* audio process *)
    rewrite Hp, lookup_empty in Hstep. discriminate.
Qed.

Lemma run_idle es : forall w w',
  idle w ->
  Forall (fun e => isClickStart e = false) es ->
  run w es = Some w' ->
  quiet w w'.
Proof.
  induction es as [|e es IH]; intros w w' Hidle Hall; simpl.
  - intros [= <-]. apply quiet_refl.
  - inversion Hall as [|? ? He Hes]; subst.
    destruct (step w e) as [w1|] eqn:Hstep; [|done]. intros Hrun.
    pose proof (step_idle w e w1 Hidle He Hstep) as Hq.
    eapply quiet_trans; [exact Hq|].
    apply IH; [by apply (idle_quiet w)|done|done].
Qed.

(** After a start that was denied the microphone, and until the next click
    on start, the component never listens, opens no connection and never
    sends audio, whatever else happens. *)
Lemma denied_start_stays_idle w resumed es w' :
  idle w ->
  Forall (fun e => isClickStart e = false) es ->
  run w (ClickStart Throw resumed :: es) = Some w' ->
  isListening (app w') = false
  /\ realtimeInputs (trace w') = realtimeInputs (trace w)
  /\ sessions w' = sessions w
  /\ processors w' = processors w.
Proof.
  intros Hidle Hall. cbn [run step]. intros Hrun.
  assert (Hq1 : quiet w (startSession Throw resumed w)) by by split.
  pose proof (idle_quiet _ _ Hidle Hq1) as Hidle1.
  pose proof (run_idle es _ _ Hidle1 Hall Hrun) as Hq2.
  destruct (quiet_trans _ _ _ Hq1 Hq2) as [Hs Hp Hi Hl].
  destruct Hidle as [_ _ Hfalse]. by rewrite Hl, Hfalse.
Qed.

(** ** Concrete sessions *)

Lemma liveWorld_run :
  run initialWorld [ClickStart ok ok; Opened 3] = Some liveWorld.
Proof. vm_compute. reflexivity. Qed.

(** The spec's round-trip example, on the code: the one response that is
    sent for the call [abc] carries [Compiled.], and no response carries
    the generated text. *)
Lemma round_trip_sends_compiled :
  run liveWorld (roundTripRun (Normal reverseResponse)) = Some roundTripWorld
  /\ toolResponses (trace roundTripWorld)
     = [(3, {| fr_id := Some "abc"; fr_name := Some "generate_code";
               fr_result := "Compiled." |})]
  /\ currentCode (app roundTripWorld) = reverseText
  /\ Forall (fun r => fr_result r.2 <> reverseText)
       (toolResponses (trace roundTripWorld)).
Proof.
  assert (Hsent : toolResponses (trace roundTripWorld)
                  = [(3, {| fr_id := Some "abc";
                            fr_name := Some "generate_code";
                            fr_result := "Compiled." |})])
    by (vm_compute; reflexivity).
  split; [vm_compute; reflexivity|]. split; [exact Hsent|].
  split; [vm_compute; reflexivity|].
  rewrite Hsent. constructor; [|constructor]. discriminate.
Qed.

(** [stopSession] while the job of call [abc] is in flight: the tool
    response is the last effect of the run, after the teardown. *)
Lemma orphaned_result_is_sent :
  run liveWorld orphanRun = Some orphanWorld
  /\ trace orphanWorld
     = [Connect 3;
        GenerateContent (generateRequest {| description := "reverse a string";
                                            language := "python" |});
        ProcessorDisconnect 4; TracksStop 0; ContextClose 1; ContextClose 2;
        SendToolResponse 3 {| fr_id := Some "abc";
                              fr_name := Some "generate_code";
                              fr_result := "Compiled." |}]
  /\ toolResponses (trace orphanWorld) <> [].
Proof.
  split; [vm_compute; reflexivity|]. split; [vm_compute; reflexivity|].
  vm_compute. discriminate.
Qed.

(** The job of call [abc] fails on a live session: no tool response is
    sent and no handler is left that could send one. *)
Lemma failed_job_sends_nothing :
  run liveWorld failedRun = Some failedWorld
  /\ sessions failedWorld !! 3 = Some Resolved
  /\ toolResponses (trace failedWorld) = []
  /\ tasks failedWorld = ∅
  /\ error (app failedWorld) = Some "Kernel overload".
Proof.
  split; [vm_compute; reflexivity|]. split; [vm_compute; reflexivity|].
  split; [vm_compute; reflexivity|]. split; vm_compute; reflexivity.
Qed.

(** A second session is started after one chunk was played in the first:
    the cursor is still at the end of that chunk, and the first chunk of
    the new session, handled at reading 0 of the new context's clock, is
    started at 2400. *)
Lemma cursor_outlives_session :
  run playingWorld restartRun = Some restartedWorld
  /\ outAudioContextRef playingWorld = Some 2
  /\ outAudioContextRef restartedWorld = Some 9
  /\ nextStartTimeRef restartedWorld = 2400%Z
  /\ option_map (fun w => schedule (trace w))
       (deliver restartedWorld (chunkAt 0))
     = Some [(0, 2400); (2400, 2400)]%Z.
Proof.
  split; [vm_compute; reflexivity|]. split; [vm_compute; reflexivity|].
  split; [vm_compute; reflexivity|]. split; vm_compute; reflexivity.
Qed.

(** One chunk is scheduled, then the session is stopped: the source is
    still in [sourcesRef]. *)
Lemma stop_leaves_sources :
  deliver liveWorld (chunkAt 0) = Some playingWorld
  /\ elements (sourcesRef playingWorld) = [6]
  /\ step playingWorld ClickStop = Some (stopSession playingWorld)
  /\ elements (sourcesRef (stopSession playingWorld)) = [6]
  /\ sourcesRef (stopSession playingWorld) <> ∅.
Proof.
  assert (H : elements (sourcesRef (stopSession playingWorld)) = [6])
    by (vm_compute; reflexivity).
  split; [vm_compute; reflexivity|]. split; [vm_compute; reflexivity|].
  split; [reflexivity|]. split; [exact H|].
  intros Hempty. rewrite Hempty in H. by rewrite elements_empty in H.
Qed.

(** ** The theorems at concrete sessions *)

Lemma playback_monotone_witness :
  exists w',
    deliverAll liveWorld pausedChunks = Some w'
    /\ schedule (trace w')
       = schedule (trace liveWorld)
         ++ specSchedule (nextStartTimeRef liveWorld) pausedChunks.
Proof.
  destruct (playback_monotone liveWorld 2 pausedChunks) as (w' & H1 & H2 & _).
  - vm_compute. reflexivity.
  - repeat constructor.
  - exists w'. split; [exact H1|exact H2].
Defined.

Lemma gap_free_under_back_pressure_witness :
  exists w' new,
    deliverAll liveWorld threeChunks = Some w'
    /\ schedule (trace w') = schedule (trace liveWorld) ++ new
    /\ new.*2 = (fun a => duration (arr_buffer a)) <$> threeChunks.
Proof.
  destruct (gap_free_under_back_pressure liveWorld 2 threeChunks)
    as (w' & new & H1 & H2 & H3 & _).
  - vm_compute. reflexivity.
  - repeat constructor.
  - intros k a wk Hk Hrun.
    destruct k as [|[|[|k]]]; [| | |discriminate Hk];
      injection Hk as <-; vm_compute in Hrun; injection Hrun as <-;
      vm_compute; discriminate.
  - exists w', new. split; [exact H1|]. split; [exact H2|exact H3].
Defined.

Lemma history_bounded_witness :
  exists w',
    step (handleMessage (toolMessage [reverseCall]) 0 liveWorld)
      (Generated 5 (Normal reverseResponse) 1700000000000 1700000000001)
    = Some w'
    /\ length (history (app w')) <= 15.
Proof.
  destruct (history_bounded
              (handleMessage (toolMessage [reverseCall]) 0 liveWorld) 5
              reverseCall
              {| description := "reverse a string"; language := "python" |}
              [] reverseResponse 1700000000000 1700000000001)
    as (w' & H1 & _ & H2 & _).
  - vm_compute. reflexivity.
  - exists w'. split; [exact H1|exact H2].
Defined.

Lemma device_denial_witness :
  exists w',
    step initialWorld (ClickStart Throw ok) = Some w'
    /\ error (app w') = Some "Microphone permission denied"
    /\ isListening (app w') = false
    /\ sessions w' = sessions initialWorld.
Proof.
  destruct (device_denial initialWorld ok) as (w' & H1 & H2 & H3 & H4 & _).
  - reflexivity.
  - exists w'. split; [exact H1|]. split; [exact H2|].
    split; [exact H3|exact H4].
Defined.

Lemma tool_round_trip_witness :
  exists w',
    run liveWorld (roundTripRun (Normal reverseResponse)) = Some w'
    /\ toolResponses (trace w')
       = toolResponses (trace liveWorld)
         ++ [(3, {| fr_id := Some "abc"; fr_name := Some "generate_code";
                    fr_result := "Compiled." |})].
Proof.
  destruct (tool_round_trip liveWorld reverseCall
              {| description := "reverse a string"; language := "python" |}
              3 reverseResponse 0 1700000000000 1700000000001)
    as (w' & H1 & H2 & _).
  - reflexivity.
  - reflexivity.
  - vm_compute. reflexivity.
  - vm_compute. reflexivity.
  - exists w'. split; [exact H1|exact H2].
Defined.

Lemma orphaned_result_still_sent_witness :
  exists w',
    run liveWorld orphanRun = Some w'
    /\ toolResponses (trace w')
       = toolResponses (trace liveWorld)
         ++ [(3, {| fr_id := Some "abc"; fr_name := Some "generate_code";
                    fr_result := "Compiled." |})].
Proof.
  destruct (orphaned_result_still_sent liveWorld reverseCall
              {| description := "reverse a string"; language := "python" |}
              3 reverseResponse 0 1700000000000 1700000000001)
    as (w' & H1 & H2 & _).
  - reflexivity.
  - reflexivity.
  - vm_compute. reflexivity.
  - vm_compute. reflexivity.
  - exists w'. split; [exact H1|exact H2].
Defined.

Lemma one_response_or_none_witness :
  exists w',
    run liveWorld failedRun = Some w'
    /\ toolResponses (trace w') = toolResponses (trace liveWorld)
    /\ error (app w') = Some "Kernel overload".
Proof.
  destruct (one_response_or_none liveWorld reverseCall
              {| description := "reverse a string"; language := "python" |}
              3 0 1700000000000 1700000000001)
    as (_ & w' & H1 & H2 & _ & H3 & _).
  - reflexivity.
  - reflexivity.
  - vm_compute. reflexivity.
  - vm_compute. reflexivity.
  - exists w'. split; [exact H1|]. split; [exact H2|exact H3].
Defined.

Lemma start_keeps_cursor_witness :
  nextStartTimeRef (startSession ok ok (stopSession playingWorld))
  = nextStartTimeRef (stopSession playingWorld).
Proof.
  destruct (start_keeps_cursor (stopSession playingWorld) ok ok (chunkAt 0))
    as (H & _).
  - vm_compute. reflexivity.
  - exact H.
Defined.


(** * Further properties of the session *)

(** ** The tool loop on whole messages *)

Lemma handleMessage_toolLoop fcs now w :
  handleMessage (toolMessage fcs) now w = toolLoop fcs w.
Proof. reflexivity. Qed.

(** X1: a message whose calls all go by other names than [generate_code]
    changes nothing: no job is started, no response is sent, the state is
    not touched. *)
Theorem other_calls_ignored (fcs : list FunctionCall) (now : Z) (w : World) :
  Forall (fun fc => fc_name fc <> Some "generate_code") fcs ->
  handleMessage (toolMessage fcs) now w = w.
Proof.
  rewrite handleMessage_toolLoop.
  induction 1 as [|fc rest Hfc _ IH]; cbn [toolLoop]; [done|].
  by rewrite bool_decide_eq_false_2.
Qed.

(** X2: a call to [generate_code] without arguments ends the handler where
    it stands: the calls after it in the same message, well-formed or not,
    are never looked at. *)
Theorem argless_call_drops_the_rest (before rest : list FunctionCall)
    (fc : FunctionCall) (now : Z) (w : World) :
  Forall (fun fc => fc_name fc <> Some "generate_code") before ->
  fc_name fc = Some "generate_code" ->
  fc_args fc = None ->
  handleMessage (toolMessage (before ++ fc :: rest)) now w = w.
Proof.
  intros Hbefore Hname Hargs. rewrite handleMessage_toolLoop.
  induction Hbefore as [|fc0 before0 Hfc0 _ IH]; cbn [List.app toolLoop].
  - by rewrite bool_decide_eq_true_2, Hargs.
  - by rewrite bool_decide_eq_false_2.
Qed.

(** One round of the loop: the job of the first dispatched call is served
    and the loop goes on with the calls after it. *)
Lemma serve_round fc a rest w s r idNow stampNow es :
  fc_name fc = Some "generate_code" ->
  fc_args fc = Some a ->
  sessionPromiseRef w = Some s ->
  sessions w !! s = Some Resolved ->
  exists w2,
    run (toolLoop (fc :: rest) w)
      (Generated (fresh w) (Normal r) idNow stampNow
         :: SessionSettled (S (fresh w)) :: es)
    = run (toolLoop rest w2) es
    /\ sessionPromiseRef w2 = Some s
    /\ sessions w2 !! s = Some Resolved
    /\ fresh w2 = S (S (fresh w))
    /\ trace w2 = trace w ++ servedEffects s (fc, a)
    /\ history (app w2)
       = take 15 (newSnippet a r idNow stampNow :: history (app w)).
Proof.
  intros Hname Hargs Hs Hopen.
  cbn [toolLoop run step]. rewrite bool_decide_eq_true_2, Hargs by done.
  fields. rewrite lookup_insert_eq.
  unfold resumeGenerate. fields. rewrite Hs. fields.
  rewrite lookup_insert_eq, Hopen.
  unfold resumeSession. eexists. split; [reflexivity|].
  fields. rewrite Hs, Hopen, <- app_assoc. done.
Qed.

Lemma toolLoop_skip fc rest w :
  fc_name fc <> Some "generate_code" ->
  toolLoop (fc :: rest) w = toolLoop rest w.
Proof. intros Hname. cbn [toolLoop]. by rewrite bool_decide_eq_false_2. Qed.

Lemma toolLoop_argless fc rest w :
  fc_name fc = Some "generate_code" -> fc_args fc = None ->
  toolLoop (fc :: rest) w = w.
Proof.
  intros Hname Hargs. cbn [toolLoop]. by rewrite bool_decide_eq_true_2, Hargs.
Qed.

Lemma serve_all fcs : forall rs w s,
  sessionPromiseRef w = Some s ->
  sessions w !! s = Some Resolved ->
  length rs = length (dispatched fcs) ->
  exists w',
    run (toolLoop fcs w) (serveEvents (fresh w) rs) = Some w'
    /\ trace w' = trace w ++ concat (servedEffects s <$> dispatched fcs)
    /\ fresh w' = 2 * length rs + fresh w.
Proof.
  induction fcs as [|fc rest IH]; intros rs w s Hs Hopen Hlen.
  - destruct rs; [|done]. exists w. cbn. by rewrite app_nil_r.
  - cbn [dispatched] in *.
    destruct (decide (fc_name fc = Some "generate_code")) as [Hname|Hname].
    + rewrite bool_decide_eq_true_2 in * by done.
      destruct (fc_args fc) as [a|] eqn:Hargs.
      * destruct rs as [|[[r idNow] stampNow] rs']; [done|].
        cbn [serveEvents].
        destruct (serve_round fc a rest w s r idNow stampNow
                    (serveEvents (S (S (fresh w))) rs') Hname Hargs Hs Hopen)
          as (w2 & Hrun & Hs2 & Hopen2 & Hf2 & Htr2 & _).
        rewrite Hrun, <- Hf2.
        destruct (IH rs' w2 s Hs2 Hopen2) as (w' & Hrun' & Htr' & Hf').
        { cbn in Hlen. lia. }
        exists w'. split; [done|].
        rewrite Htr', Htr2, Hf', Hf2, fmap_cons, concat_cons, app_assoc.
        split; [done|]. cbn [length]. lia.
      * destruct rs; [|done]. rewrite toolLoop_argless by done.
        exists w. cbn. by rewrite app_nil_r.
    + rewrite bool_decide_eq_false_2 in * by done.
      rewrite toolLoop_skip by done. by apply IH.
Qed.

(** X3: the calls of one message are served one at a time and in order.
    With a stored, resolved session promise and every job succeeding, the
    run issues for each dispatched call its generation request and then
    its response, and only then turns to the next call; calls by other
    names are passed over, and nothing else is sent. *)
Theorem calls_served_in_turn (fcs : list FunctionCall)
    (rs : list (GenerateContentResponse * Z * Z)) (now : Z) (w : World)
    (s : nat) :
  sessionPromiseRef w = Some s ->
  sessions w !! s = Some Resolved ->
  length rs = length (dispatched fcs) ->
  exists w',
    run w (Message (toolMessage fcs) now :: serveEvents (fresh w) rs) = Some w'
    /\ trace w' = trace w ++ concat (servedEffects s <$> dispatched fcs)
    /\ toolResponses (trace w')
       = toolResponses (trace w)
         ++ ((fun job => (s, compiledResponse job.1)) <$> dispatched fcs).
Proof.
  intros Hs Hopen Hlen. cbn [run step]. rewrite handleMessage_toolLoop.
  destruct (serve_all fcs rs w s Hs Hopen Hlen) as (w' & Hrun & Htr & _).
  exists w'. split; [done|]. split; [done|].
  rewrite Htr, toolResponses_app. f_equal.
  clear. induction (dispatched fcs) as [|job jobs IH]; [done|].
  rewrite !fmap_cons, concat_cons, toolResponses_app, IH. done.
Qed.

(** ** Failures on the way *)

(** X4: when the decoding of a chunk fails, the handler ends there.  The
    cursor has already been moved up to the clock, but no source is
    started, and the transcripts and tool calls that came in the same
    message are lost: the state and the trace are as before the message. *)
Theorem decode_failure_drops_message (w : World) (ctx : nat)
    (message : LiveServerMessage) (now : Z) :
  outAudioContextRef w = Some ctx ->
  carriesAudio message = true ->
  exists w',
    run w [Message message now; Decoded (fresh w) Throw] = Some w'
    /\ app w' = app w
    /\ trace w' = trace w
    /\ nextStartTimeRef w' = Z.max (nextStartTimeRef w) now
    /\ sourcesRef w' = sourcesRef w
    /\ tasks w' !! fresh w = None.
Proof.
  intros Hctx Haudio. unfold carriesAudio in Haudio.
  cbn [run step]. unfold handleMessage.
  destruct (audioData message) as [audio|]; [|done].
  rewrite Haudio, Hctx. fields. rewrite lookup_insert_eq.
  eexists. split; [reflexivity|]. unfold resumeDecode. fields.
  by rewrite lookup_delete_eq.
Qed.

(** X8: when the job succeeds but the stored session promise is rejected,
    the generated code is shown and recorded all the same, no response is
    sent, and the handler ends in its [catch]: the state says
    [Kernel overload]. *)
Theorem rejected_session_reports_overload (w : World) (fc : FunctionCall)
    (a : Args) (s : nat) (response : GenerateContentResponse)
    (now idNow stampNow : Z) :
  fc_name fc = Some "generate_code" ->
  fc_args fc = Some a ->
  sessionPromiseRef w = Some s ->
  sessions w !! s = Some Rejected ->
  exists w',
    run w [Message (toolMessage [fc]) now;
           Generated (fresh w) (Normal response) idNow stampNow;
           SessionSettled (S (fresh w))] = Some w'
    /\ toolResponses (trace w') = toolResponses (trace w)
    /\ currentCode (app w')
       = orDefault (responseText response) "// Synthesis failed"
    /\ head (history (app w')) = Some (newSnippet a response idNow stampNow)
    /\ error (app w') = Some "Kernel overload"
    /\ isProcessing (app w') = false.
Proof.
  intros Hname Hargs Hs Hrej.
  cbn [run step]. rewrite (handleMessage_toolMessage fc a) by done.
  fields. rewrite lookup_insert_eq.
  unfold resumeGenerate. fields. rewrite Hs. fields.
  rewrite lookup_insert_eq, Hrej.
  eexists. split; [reflexivity|].
  unfold resumeSession. cbn [toolLoop]. fields.
  rewrite toolResponses_app. cbn [toolResponses]. by rewrite app_nil_r.
Qed.

(** X9: two calls that came in two messages are in flight together.  When
    the first job ends, the state shows its code under the description of
    the second call and says it is no longer processing, while the second
    job is still out. *)
Theorem overlapping_jobs_share_the_state (w : World) (fc1 fc2 : FunctionCall)
    (a1 a2 : Args) (response : GenerateContentResponse)
    (now1 now2 idNow stampNow : Z) :
  fc_name fc1 = Some "generate_code" ->
  fc_args fc1 = Some a1 ->
  fc_name fc2 = Some "generate_code" ->
  fc_args fc2 = Some a2 ->
  exists w',
    run w [Message (toolMessage [fc1]) now1;
           Message (toolMessage [fc2]) now2;
           Generated (fresh w) (Normal response) idNow stampNow] = Some w'
    /\ currentCode (app w')
       = orDefault (responseText response) "// Synthesis failed"
    /\ currentDescription (app w') = description a2
    /\ isProcessing (app w') = false
    /\ tasks w' !! S (fresh w) = Some (AwaitGenerate fc2 a2 []).
Proof.
  intros Hname1 Hargs1 Hname2 Hargs2.
  cbn [run step].
  rewrite (handleMessage_toolMessage fc1 a1), (handleMessage_toolMessage fc2 a2)
    by done.
  fields. cbn [Nat.add].
  rewrite lookup_insert_ne, lookup_insert_eq by lia.
  eexists. split; [reflexivity|].
  unfold resumeGenerate. fields.
  destruct (sessionPromiseRef w); cbn [toolLoop]; fields; cbn [Nat.add].
  - split; [done|]. split; [done|]. split; [done|].
    rewrite lookup_insert_ne, lookup_delete_ne, lookup_insert_eq by lia.
    done.
  - split; [done|]. split; [done|]. split; [done|].
    rewrite lookup_delete_ne, lookup_insert_eq by lia. done.
Qed.

(** ** Stopping, closing and starting again *)

(** The refs that name what [stopSession] tears down are not cleared by
    it. *)
Lemma stopSession_refs w :
  scriptProcessorRef (stopSession w) = scriptProcessorRef w
  /\ streamRef (stopSession w) = streamRef w
  /\ audioContextRef (stopSession w) = audioContextRef w
  /\ processors (stopSession w)
     = match scriptProcessorRef w with
       | Some p => delete p (processors w)
       | None => processors w
       end.
Proof.
  unfold stopSession.
  destruct (scriptProcessorRef w) eqn:?; fields;
    destruct (streamRef w) eqn:?; fields;
    destruct (audioContextRef w) eqn:?; fields;
    destruct (outAudioContextRef w) eqn:?; fields; done.
Qed.

(** X5: a second [stopSession] changes nothing in the component - state,
    refs, sessions, processors and parked handlers are as after the first -
    but since the first cleared no ref, it makes the same calls on the same
    objects once more. *)
Theorem stop_twice (w : World) :
  let w1 := stopSession w in
  let w2 := stopSession w1 in
  app w2 = app w1
  /\ scriptProcessorRef w2 = scriptProcessorRef w1
  /\ streamRef w2 = streamRef w1
  /\ audioContextRef w2 = audioContextRef w1
  /\ outAudioContextRef w2 = outAudioContextRef w1
  /\ sessionPromiseRef w2 = sessionPromiseRef w1
  /\ nextStartTimeRef w2 = nextStartTimeRef w1
  /\ sourcesRef w2 = sourcesRef w1
  /\ sessions w2 = sessions w1
  /\ processors w2 = processors w1
  /\ tasks w2 = tasks w1
  /\ trace w2 = trace w1 ++ teardownEffects w.
Proof.
  intros w1 w2. subst w2.
  destruct (stopSession_keeps w1) as (Hp & Hss & Hts & _ & Hn & Hsrc & Hout & Happ).
  destruct (stopSession_refs w1) as (Hsp & Hst & Hac & Hpr).
  rewrite Happ, Hp, Hss, Hts, Hn, Hsrc, Hout, Hsp, Hst, Hac, Hpr,
    stopSession_trace.
  subst w1.
  destruct (stopSession_keeps w) as (_ & _ & _ & _ & _ & _ & Hout' & Happ').
  destruct (stopSession_refs w) as (Hsp' & Hst' & Hac' & Hpr').
  assert (Htd : teardownEffects (stopSession w) = teardownEffects w).
  { unfold teardownEffects. by rewrite Hsp', Hst', Hac', Hout'. }
  rewrite Htd, Hsp', Hpr', Happ'.
  repeat (split; [done|]). split; [|done].
  destruct (scriptProcessorRef w) as [p|]; [|done].
  apply map_eq. intros i. destruct (decide (i = p)) as [->|Hne].
  - by rewrite !lookup_delete_eq.
  - by rewrite !lookup_delete_ne.
Qed.

(** X6: [stopSession] does not end the scheduling.  A chunk that arrives
    after it - the session is still open - is decoded and started like any
    other, in the output context that was just closed; the cursor moves on
    and the source joins [sourcesRef]. *)
Theorem scheduling_goes_on_after_stop (w : World) (ctx : nat) (a : Arrival) :
  outAudioContextRef w = Some ctx ->
  carriesAudio (arr_message a) = true ->
  exists w',
    run w [ClickStop;
           Message (arr_message a) (arr_now a);
           Decoded (fresh w) (Normal (arr_buffer a))] = Some w'
    /\ In (ContextClose ctx) (teardownEffects w)
    /\ schedule (trace w')
       = schedule (trace w)
         ++ [(Z.max (nextStartTimeRef w) (arr_now a), duration (arr_buffer a))]
    /\ nextStartTimeRef w'
       = (Z.max (nextStartTimeRef w) (arr_now a) + duration (arr_buffer a))%Z
    /\ sourcesRef w' = {[S (fresh w)]} ∪ sourcesRef w.
Proof.
  intros Hctx Haudio.
  destruct (stopSession_keeps w) as (_ & _ & _ & Hf & Hn & Hsrc & Hout & _).
  destruct (deliver_scheduled (stopSession w) ctx a) as
    (w' & Hrun & _ & Hnst & Hsch & Hsources); [by rewrite Hout|done|].
  exists w'. unfold deliver in Hrun. rewrite Hf in Hrun.
  split; [exact Hrun|].
  split.
  { unfold teardownEffects. rewrite Hctx, !in_app_iff. simpl. auto. }
  rewrite Hnst, Hsch, Hsources, Hn, Hsrc, Hf, stopSession_trace, schedule_app.
  by rewrite (teardown_schedule _ (teardownEffects_teardown w)), app_nil_r.
Qed.

(** X7: when the connection is closed from the far side, [onclose] only
    turns [isListening] off.  Nothing is released: the script processor is
    still wired, and the next frame it captures is handed to
    [sendRealtimeInput] on the closed session. *)
Theorem remote_close_keeps_capturing (w : World) (p s : nat) (media : string) :
  processors w !! p = Some s ->
  sessions w !! s = Some Resolved ->
  exists w',
    run w [Closed; AudioProcess p media] = Some w'
    /\ isListening (app w') = false
    /\ trace w' = trace w ++ [SendRealtimeInput s media]
    /\ processors w' = processors w
    /\ streamRef w' = streamRef w
    /\ scriptProcessorRef w' = scriptProcessorRef w.
Proof.
  intros Hp Hs. cbn [run step]. unfold onclose. fields. rewrite Hp.
  unfold onaudioprocess. fields. rewrite Hs.
  eexists. split; [reflexivity|]. by fields.
Qed.

(** X10: [startSession] says [isListening] as soon as it has asked for the
    connection (line 156), before [onopen] has run: the promise of the new
    session is stored and still pending, no script processor has been
    created or wired for it, and nothing has been sent. *)
Theorem listening_before_open (w : World) :
  exists w',
    step w (ClickStart ok ok) = Some w'
    /\ isListening (app w') = true
    /\ error (app w') = None
    /\ sessionPromiseRef w' = Some (3 + fresh w)
    /\ sessions w' !! (3 + fresh w) = Some Pending
    /\ processors w' = processors w
    /\ scriptProcessorRef w' = scriptProcessorRef w
    /\ realtimeInputs (trace w') = realtimeInputs (trace w).
Proof.
  cbn [step]. unfold startSession, ok. fields.
  eexists. split; [reflexivity|]. fields.
  rewrite lookup_insert_eq, realtimeInputs_app. cbn [realtimeInputs].
  by rewrite app_nil_r.
Qed.

(** X11: a session that was closed from the far side and then replaced is
    never torn down.  After start, open, remote close, start, open and
    stop, the only objects released are those of the second session: the
    first stream is not stopped, the first contexts are not closed, the
    first script processor is still wired, and its next frame is still
    sent on the first session. *)
Theorem replaced_session_is_never_released (w : World) (media : string) :
  exists w',
    run w [ClickStart ok ok; Opened (3 + fresh w); Closed;
           ClickStart ok ok; Opened (8 + fresh w); ClickStop;
           AudioProcess (4 + fresh w) media] = Some w'
    /\ trace w'
       = trace w
         ++ [Connect (3 + fresh w); Connect (8 + fresh w);
             ProcessorDisconnect (9 + fresh w); TracksStop (5 + fresh w);
             ContextClose (6 + fresh w); ContextClose (7 + fresh w);
             SendRealtimeInput (3 + fresh w) media]
    /\ processors w' !! (4 + fresh w) = Some (3 + fresh w)
    /\ isListening (app w') = false.
Proof.
  cbn [run step Nat.add].
  unfold startSession, ok, onopen, onclose, stopSession, onaudioprocess.
  fields. cbn [Nat.add]. rewrite lookup_insert_eq.
  fields. cbn [Nat.add]. rewrite lookup_insert_eq.
  fields. cbn [Nat.add].
  rewrite lookup_delete_ne, lookup_insert_ne, lookup_insert_eq by lia.
  fields. cbn [Nat.add].
  rewrite lookup_insert_ne, lookup_insert_ne, lookup_insert_eq by lia.
  eexists. split; [reflexivity|]. fields.
  rewrite <- !app_assoc. split; [done|]. split; [|done].
  rewrite lookup_delete_ne, lookup_insert_ne, lookup_insert_eq by lia.
  done.
Qed.

(** ** Invariants of every run *)

Lemma sound_initial : sound initialWorld.
Proof.
  split; cbn.
  - set_solver.
  - done.
  - done.
  - apply map_Forall_empty.
  - constructor.
Qed.

Lemma sound_setState f w : sound w -> sound (setState f w).
Proof. intros []. by split. Qed.

Lemma sound_cursor t w : sound w -> sound (set_nextStartTime t w).
Proof. intros []. by split. Qed.

Lemma sound_suspend t w : taskNamed t -> sound w -> sound (suspend t w).
Proof.
  intros Ht [Hfresh Hcount Hpromise Htasks Hresp]. split; fields; try done.
  - intros x Hx. specialize (Hfresh x Hx). lia.
  - by apply map_Forall_insert_2.
Qed.

Lemma sound_finish t w : sound w -> sound (finish t w).
Proof.
  intros [Hfresh Hcount Hpromise Htasks Hresp]. split; fields; try done.
  by apply map_Forall_delete.
Qed.

Lemma sound_emit e w : plainEffect e -> sound w -> sound (emit e w).
Proof.
  intros He [Hfresh Hcount Hpromise Htasks Hresp]. split; fields; try done.
  - rewrite schedule_app, length_app, Hcount. destruct e; cbn; try lia; done.
  - rewrite toolResponses_app. apply Forall_app. split; [done|].
    destruct e; cbn; try constructor; [exact He|constructor].
Qed.

(** The four steps of lines 64-69 that start a source. *)
Lemma sound_started ctx when t dur w :
  sound w ->
  sound (add_source (fresh w)
           (set_nextStartTime t
              (emit (SourceStart (fresh w) ctx when dur) (alloc 1 w)))).
Proof.
  intros [Hfresh Hcount Hpromise Htasks Hresp]. split; fields; try done.
  - intros x [->%elem_of_singleton|Hx]%elem_of_union; [lia|].
    specialize (Hfresh x Hx). lia.
  - rewrite schedule_app, length_app, size_union, size_singleton, Hcount.
    + cbn. lia.
    + intros x ->%elem_of_singleton Hx. specialize (Hfresh _ Hx). lia.
  - rewrite toolResponses_app. cbn. by rewrite app_nil_r.
Qed.

Lemma sound_toolLoop fcs : forall w, sound w -> sound (toolLoop fcs w).
Proof.
  induction fcs as [|fc rest IH]; intros w Hw; cbn [toolLoop]; [done|].
  case_bool_decide as Hname; [|by apply IH].
  destruct (fc_args fc) as [a|]; [|done].
  apply sound_suspend; [exact Hname|].
  apply sound_emit; [done|]. by apply sound_setState.
Qed.

Lemma sound_afterAudio message w : sound w -> sound (afterAudio message w).
Proof.
  intros Hw. unfold afterAudio.
  repeat match goal with
         | |- context [match ?x with _ => _ end] => destruct x
         end;
    repeat first [ assumption
                 | apply sound_toolLoop
                 | apply sound_setState ].
Qed.

Lemma sound_handleMessage message now w :
  sound w -> sound (handleMessage message now w).
Proof.
  intros Hw. unfold handleMessage.
  destruct (audioData message) as [audio|]; [|done].
  destruct (truthy audio); [|by apply sound_afterAudio].
  destruct (outAudioContextRef w); [|by apply sound_afterAudio].
  apply sound_suspend; [done|]. by apply sound_cursor.
Qed.

Lemma sound_resumeDecode message ctx r w :
  sound w -> sound (resumeDecode message ctx r w).
Proof.
  intros Hw. unfold resumeDecode. destruct r as [buffer|]; [|done].
  apply sound_afterAudio. by apply sound_started.
Qed.

Lemma sound_resumeGenerate fc a rest r idNow stampNow w :
  fc_name fc = Some "generate_code" ->
  sound w -> sound (resumeGenerate fc a rest r idNow stampNow w).
Proof.
  intros Hname Hw. unfold resumeGenerate. destruct r as [response|].
  - fields. destruct (sessionPromiseRef w).
    + apply sound_suspend; [exact Hname|]. by apply sound_setState.
    + apply sound_toolLoop. by apply sound_setState.
  - apply sound_toolLoop. by apply sound_setState.
Qed.

Lemma sound_resumeSession fc rest s r w :
  fc_name fc = Some "generate_code" ->
  sound w -> sound (resumeSession fc rest s r w).
Proof.
  intros Hname Hw. unfold resumeSession. destruct r as [[]|].
  - apply sound_toolLoop. apply sound_emit; [|done]. by split.
  - apply sound_toolLoop. by apply sound_setState.
Qed.

Lemma sound_startSession media resumed w :
  sound w -> sound (startSession media resumed w).
Proof.
  intros [Hfresh Hcount Hpromise Htasks Hresp].
  unfold startSession. destruct media as [[]|], resumed as [[]|];
    split; fields; try done;
    try (intros x Hx; specialize (Hfresh x Hx); lia).
  - rewrite schedule_app. cbn. by rewrite app_nil_r.
  - rewrite lookup_insert_eq. by eexists.
  - rewrite toolResponses_app. cbn. by rewrite app_nil_r.
Qed.

Lemma sound_settled s st w :
  is_Some (sessions w !! s) -> sound w -> sound (set_session s st w).
Proof.
  intros Hs [Hfresh Hcount Hpromise Htasks Hresp]. split; fields; try done.
  destruct (sessionPromiseRef w) as [s'|].
  - apply lookup_insert_is_Some. destruct (decide (s = s')); auto.
  - rewrite Hpromise, lookup_empty in Hs. by destruct Hs.
Qed.

Lemma sound_onopen s w : sound w -> sound (onopen s w).
Proof.
  intros [Hfresh Hcount Hpromise Htasks Hresp].
  unfold onopen. split; fields; try done.
  intros x Hx. specialize (Hfresh x Hx). lia.
Qed.

Lemma sound_stopSession w : sound w -> sound (stopSession w).
Proof.
  intros [Hfresh Hcount Hpromise Htasks Hresp].
  destruct (stopSession_keeps w) as (Hp & Hss & Hts & Hf & _ & Hsrc & _).
  split; rewrite ?Hp, ?Hss, ?Hts, ?Hf, ?Hsrc, ?stopSession_trace; try done.
  - rewrite schedule_app.
    by rewrite (teardown_schedule _ (teardownEffects_teardown w)), app_nil_r.
  - rewrite toolResponses_app.
    by rewrite (teardown_toolResponses _ (teardownEffects_teardown w)),
      app_nil_r.
Qed.

Lemma sound_onaudioprocess s media w : sound w -> sound (onaudioprocess s media w).
Proof.
  intros Hw. unfold onaudioprocess.
  destruct (sessions w !! s) as [[]|]; try done. by apply sound_emit.
Qed.

Lemma step_sound w e w' : sound w -> step w e = Some w' -> sound w'.
Proof.
  intros Hw. pose proof (sound_tasks w Hw) as Htasks.
  destruct e; cbn [step]; intros Hstep.
  - injection Hstep as <-. by apply sound_startSession.
  - injection Hstep as <-. by apply sound_stopSession.
  - destruct (sessions w !! session) as [[]|] eqn:E; try discriminate.
    injection Hstep as <-. apply sound_onopen, sound_settled; [|done].
    by eexists.
  - destruct (sessions w !! session) as [[]|] eqn:E; try discriminate.
    injection Hstep as <-. apply sound_settled; [|done]. by eexists.
  - injection Hstep as <-. by apply sound_setState.
  - injection Hstep as <-. by apply sound_handleMessage.
  - destruct (tasks w !! task) as [[]|] eqn:E; try discriminate.
    injection Hstep as <-. by apply sound_resumeDecode, sound_finish.
  - destruct (tasks w !! task) as [[]|] eqn:E; try discriminate.
    injection Hstep as <-.
    apply sound_resumeGenerate; [|by apply sound_finish].
    exact (Htasks _ _ E).
  - destruct (tasks w !! task) as [[]|] eqn:E; try discriminate.
    destruct (sessions w !! session) as [[]|]; try discriminate;
      injection Hstep as <-.
    + apply (sound_resumeSession fc rest session (Normal ()));
        [exact (Htasks _ _ E)|by apply sound_finish].
    + apply (sound_resumeSession fc rest session Throw);
        [exact (Htasks _ _ E)|by apply sound_finish].
  - destruct (processors w !! processor); try discriminate.
    injection Hstep as <-. by apply sound_onaudioprocess.
Qed.

Lemma run_sound es : forall w w', sound w -> run w es = Some w' -> sound w'.
Proof.
  induction es as [|e es IH]; intros w w' Hw; cbn [run].
  - by intros [= <-].
  - destruct (step w e) as [w1|] eqn:Hstep; [|done].
    apply IH. by apply (step_sound w e).
Qed.

(** X12: a source that was started is never taken out of [sourcesRef]:
    after any run the set holds one handle for every buffer that was ever
    scheduled, also those whose playback ended long ago. *)
Theorem sources_pile_up (es : list Event) (w : World) :
  run initialWorld es = Some w ->
  size (sourcesRef w) = length (schedule (trace w)).
Proof.
  intros Hrun. by destruct (run_sound es _ _ sound_initial Hrun).
Qed.

(** X13: whatever comes in and in whatever order, every tool response the
    component sends is for a call named [generate_code] and says
    [Compiled.]. *)
Theorem every_response_says_compiled (es : list Event) (w : World) :
  run initialWorld es = Some w ->
  Forall (fun sr => fr_result sr.2 = "Compiled."
                    /\ fr_name sr.2 = Some "generate_code")
    (toolResponses (trace w)).
Proof.
  intros Hrun. by destruct (run_sound es _ _ sound_initial Hrun).
Qed.

(** X14: the session promise is stored by the first start and never
    cleared: once any session exists, [sessionPromiseRef] names one of
    them, so the guard of line 104 lets every finished job through. *)
Theorem promise_never_cleared (es : list Event) (w : World) :
  run initialWorld es = Some w ->
  sessions w <> ∅ ->
  exists s, sessionPromiseRef w = Some s /\ is_Some (sessions w !! s).
Proof.
  intros Hrun Hne.
  destruct (run_sound es _ _ sound_initial Hrun) as [_ _ Hpromise _ _].
  destruct (sessionPromiseRef w) as [s|]; [by exists s|done].
Qed.

(** * Properties of the assistant chat *)


Lemma append_empty s : EmptyString +:+ s = s.
Proof. reflexivity. Qed.

Lemma append_String c s1 s2 : String c s1 +:+ s2 = String c (s1 +:+ s2).
Proof. reflexivity. Qed.

Lemma chat_split_head h : forall p,
  occurs Chat.comma h = false ->
  Chat.split Chat.comma (h +:+ String Chat.comma p)
  = h :: Chat.split Chat.comma p.
Proof.
  induction h as [|c h IH]; intros p;
    rewrite ?append_empty, ?append_String; cbn [Chat.split occurs].
  - by rewrite Ascii.eqb_refl.
  - intros [Hc Hh]%orb_false_iff. by rewrite Hc, IH.
Qed.

Lemma chat_split_whole p :
  occurs Chat.comma p = false -> Chat.split Chat.comma p = [p].
Proof.
  induction p as [|c p IH]; cbn [Chat.split occurs]; [done|].
  intros [Hc Hp]%orb_false_iff. by rewrite Hc, IH.
Qed.

Lemma chat_occurs_app c s1 s2 :
  occurs c (s1 +:+ s2) = occurs c s1 || occurs c s2.
Proof.
  induction s1 as [|c1 s1 IH]; rewrite ?append_empty, ?append_String;
    cbn [occurs]; [done|].
  by rewrite IH, orb_assoc.
Qed.

Lemma chat_append_assoc s1 s2 s3 : (s1 +:+ s2) +:+ s3 = s1 +:+ (s2 +:+ s3).
Proof.
  induction s1 as [|c s1 IH]; rewrite ?append_empty, ?append_String; [done|].
  by rewrite IH.
Qed.

(** X15: of the data URL of an attached image the request carries the
    base64 payload, whole and alone, and it labels it [image/png] whatever
    type the URL itself declares. *)
Theorem image_payload_of_data_url (mime payload t : string) :
  occurs Chat.comma mime = false ->
  occurs Chat.comma payload = false ->
  Chat.buildContents t (Some (Chat.dataUrl mime payload))
  = [Chat.ImageContent (Some payload) "image/png" t].
Proof.
  intros Hmime Hpayload. unfold Chat.buildContents.
  assert (Hsplit : Chat.imagePayload (Chat.dataUrl mime payload) = Some payload).
  { unfold Chat.imagePayload, Chat.dataUrl.
    change (";base64," +:+ payload)
      with (";base64" +:+ String Chat.comma payload).
    rewrite <- !chat_append_assoc.
    rewrite chat_split_head, chat_split_whole; [done|done|].
    rewrite !chat_occurs_app, Hmime. reflexivity. }
  rewrite Hsplit.
  assert (Htruthy : truthy (Some (Chat.dataUrl mime payload)) = true)
    by reflexivity.
  by rewrite Htruthy.
Qed.

(** Field projections of an explicit desk or state. *)
Ltac chat_fields :=
  cbn [Chat.state Chat.pending Chat.sent Chat.next Chat.base Chat.chatHistory
       Chat.useThinking Chat.useGrounding Chat.model Chat.contents
       Chat.config Chat.systemInstruction Chat.thinkingBudget Chat.tools
       Chat.latLng Chat.request Chat.finish Chat.pushMessage
       Chat.setLinkFailed Chat.toggleThinking Chat.setGrounding
       Chat.withTools Chat.withLatLng Chat.thinkingConfig
       Chat.resumeReply Chat.resumePosition
       isListening isProcessing currentCode currentDescription history
       error liveUserText liveAiText view] in *.

(** X16: every send puts out exactly one request.  It goes to the PRO
    model only in thinking mode without grounding; with search or maps
    grounding the model is replaced, but the thinking budget of 32768 is
    still in the configuration whenever thinking mode is on. *)
Theorem grounding_replaces_the_model (d : Chat.Desk) (t : string)
    (imageData : option string) (idNow stampNow : Z)
    (position : Completion Chat.LatLng) :
  exists d' req,
    Chat.run d (Chat.sendEvents d t imageData idNow stampNow position) = Some d'
    /\ Chat.sent d' = Chat.sent d ++ [req]
    /\ (Chat.model req = ModelName_PRO
        <-> Chat.useThinking (Chat.state d) = true
            /\ Chat.useGrounding (Chat.state d) = Chat.GroundNone)
    /\ (Chat.thinkingBudget (Chat.config req) = Some 32768%Z
        <-> Chat.useThinking (Chat.state d) = true)
    /\ Chat.tools (Chat.config req)
       = match Chat.useGrounding (Chat.state d) with
         | Chat.GroundNone => None
         | Chat.GroundSearch => Some [Chat.googleSearch]
         | Chat.GroundMaps => Some [Chat.googleMaps]
         end
    /\ Chat.contents req = Chat.buildContents t imageData.
Proof.
  unfold Chat.sendEvents, Chat.run, Chat.step, Chat.handleSendMessage.
  destruct (Chat.useGrounding (Chat.state d)) eqn:Hg;
    destruct (Chat.useThinking (Chat.state d)) eqn:Ht; chat_fields;
    rewrite ?lookup_insert_eq; try destruct position as [pos|];
    chat_fields; eexists; eexists;
    (split; [reflexivity|]); chat_fields;
    (split; [reflexivity|]); chat_fields;
    repeat split; try done; try (intros [? ?]; done).
Qed.

(** X17: with maps grounding, a position that cannot be had changes
    nothing but the request's coordinates: the same request goes out
    without them, the state is the same as with a position, and no error
    is recorded. *)
Theorem position_failure_is_silent (d : Chat.Desk) (t : string)
    (imageData : option string) (idNow stampNow : Z) (pos : Chat.LatLng) :
  Chat.useGrounding (Chat.state d) = Chat.GroundMaps ->
  exists d1 d2 req,
    Chat.run d [Chat.Send t imageData idNow stampNow;
                Chat.Located (Chat.next d) Throw] = Some d1
    /\ Chat.run d [Chat.Send t imageData idNow stampNow;
                   Chat.Located (Chat.next d) (Normal pos)] = Some d2
    /\ Chat.sent d1 = Chat.sent d ++ [req]
    /\ Chat.latLng (Chat.config req) = None
    /\ Chat.sent d2
       = Chat.sent d
         ++ [Chat.mkRequest (Chat.model req) (Chat.contents req)
               (Chat.withLatLng pos (Chat.config req))]
    /\ Chat.state d1 = Chat.state d2
    /\ Chat.pending d1 = Chat.pending d2
    /\ error (Chat.base (Chat.state d1)) = error (Chat.base (Chat.state d)).
Proof.
  intros Hg. cbn [Chat.run Chat.step]. unfold Chat.handleSendMessage.
  rewrite Hg. chat_fields. rewrite lookup_insert_eq. chat_fields.
  eexists. eexists. eexists.
  split; [reflexivity|]. split; [reflexivity|]. chat_fields.
  split; [reflexivity|]. chat_fields. done.
Qed.


(** What one event adds to the chat history. *)
Lemma chat_step_appends d e d' :
  Chat.step d e = Some d' ->
  exists more,
    Chat.chatHistory (Chat.state d') = Chat.chatHistory (Chat.state d) ++ more
    /\ Chat.userMessages more = Chat.sends [e].
Proof.
  destruct e; cbn [Chat.step]; intros Hstep.
  - injection Hstep as <-. unfold Chat.handleSendMessage.
    exists [Chat.userMsg t imageData idNow stampNow].
    destruct (Chat.useGrounding (Chat.state d)); chat_fields; done.
  - destruct (Chat.pending d !! task) as [[]|]; try discriminate.
    injection Hstep as <-. exists [].
    destruct r; chat_fields; by rewrite app_nil_r.
  - destruct (Chat.pending d !! task) as [[]|]; try discriminate.
    injection Hstep as <-. destruct r as [response|]; chat_fields.
    + by exists [Chat.assistantMsg response thinking idNow stampNow].
    + exists []. by rewrite app_nil_r.
  - injection Hstep as <-. exists []. chat_fields. by rewrite app_nil_r.
  - injection Hstep as <-. exists []. chat_fields. by rewrite app_nil_r.
Qed.

Lemma chat_userMessages_app ms1 ms2 :
  Chat.userMessages (ms1 ++ ms2)
  = Chat.userMessages ms1 + Chat.userMessages ms2.
Proof.
  induction ms1 as [|m ms1 IH]; cbn; [done|].
  destruct (Chat.role m); rewrite IH; done.
Qed.

(** X19: the chat history only ever grows at its end.  After any run of
    sends, replies and clicks, with the calls overlapping and settling in
    any order, the history is the old one followed by new messages, and
    among the new ones there is exactly one user message for every
    send. *)
Theorem chat_history_only_grows (es : list Chat.Event) (d d' : Chat.Desk) :
  Chat.run d es = Some d' ->
  exists more,
    Chat.chatHistory (Chat.state d') = Chat.chatHistory (Chat.state d) ++ more
    /\ Chat.userMessages more = Chat.sends es.
Proof.
  revert d. induction es as [|e es IH]; intros d; cbn [Chat.run].
  - intros [= <-]. exists []. by rewrite app_nil_r.
  - destruct (Chat.step d e) as [d1|] eqn:Hstep; [|done]. intros Hrun.
    destruct (chat_step_appends d e d1 Hstep) as (m1 & H1 & Hc1).
    destruct (IH d1 Hrun) as (m2 & H2 & Hc2).
    exists (m1 ++ m2). rewrite H2, H1, app_assoc. split; [done|].
    rewrite chat_userMessages_app, Hc1, Hc2. by destruct e.
Qed.

Lemma collectLinks_length chunks :
  length (Chat.collectLinks chunks) = Chat.linkCount chunks.
Proof.
  induction chunks as [|chunk rest IH]; cbn; [done|].
  rewrite !length_app, IH.
  destruct (Chat.web chunk), (Chat.maps chunk); cbn; lia.
Qed.

Lemma collectLinks_bind chunks :
  Chat.collectLinks chunks
  = chunks ≫= (fun chunk =>
      option_list
        ((fun s => {| Chat.uri := Chat.source_uri s;
                      Chat.title := Chat.source_title s |})
           <$> Chat.web chunk)
      ++ option_list
           ((fun s => {| Chat.uri := Chat.source_uri s;
                         Chat.title := Chat.source_title s |})
              <$> Chat.maps chunk)).
Proof.
  induction chunks as [|chunk rest IH]; [done|].
  cbn [Chat.collectLinks mbind list_bind]. rewrite IH, app_assoc.
  by destruct (Chat.web chunk), (Chat.maps chunk).
Qed.

(** X20: the links of an assistant message are those of the chunks in
    the order of the chunks, for each chunk its web link and then its maps
    link, each with the uri and the title of its source; so they are as
    many as the chunks have of the two.  A message has a list of links
    only when there is at least one: no chunks, or chunks with neither
    kind, give a message without the field. *)
Theorem grounding_links_of_chunks (response : Chat.Response) (thinking : bool)
    (idNow stampNow : Z) :
  Chat.linksOf response
  = default [] (Chat.groundingChunks response) ≫= (fun chunk =>
      option_list
        ((fun s => {| Chat.uri := Chat.source_uri s;
                      Chat.title := Chat.source_title s |})
           <$> Chat.web chunk)
      ++ option_list
           ((fun s => {| Chat.uri := Chat.source_uri s;
                         Chat.title := Chat.source_title s |})
              <$> Chat.maps chunk))
  /\ length (Chat.linksOf response)
     = match Chat.groundingChunks response with
       | Some chunks => Chat.linkCount chunks
       | None => 0
       end
  /\ match Chat.groundingLinks
             (Chat.assistantMsg response thinking idNow stampNow) with
     | Some links => links = Chat.linksOf response /\ links <> []
     | None => Chat.linksOf response = []
     end.
Proof.
  split; [|split].
  - unfold Chat.linksOf. destruct (Chat.groundingChunks response); [|done].
    apply collectLinks_bind.
  - unfold Chat.linksOf. destruct (Chat.groundingChunks response); [|done].
    apply collectLinks_length.
  - cbn [Chat.assistantMsg Chat.groundingLinks].
    destruct (Chat.linksOf response); done.
Qed.

(** * Properties of the preview frame and the code display *)

Lemma startsWith_occurs p : forall s c,
  startsWith s p = true -> occurs c p = true -> occurs c s = true.
Proof.
  induction p as [|cp p IH]; intros s c; cbn [startsWith occurs];
    [done|].
  destruct s as [|cs s]; [done|]. cbn [occurs].
  intros [Hc Hs]%andb_true_iff [Hcp|Hp]%orb_true_iff.
  - apply Ascii.eqb_eq in Hc as ->. by rewrite Hcp.
  - rewrite (IH _ _ Hs Hp). apply orb_true_r.
Qed.

Lemma includes_occurs s : forall p c,
  includes s p = true -> occurs c p = true -> occurs c s = true.
Proof.
  induction s as [|cs s IH]; intros p c; cbn [includes].
  - rewrite orb_false_r. apply startsWith_occurs.
  - intros [Hs|Hi]%orb_true_iff Hp.
    + by apply (startsWith_occurs p).
    + cbn [occurs]. rewrite (IH _ _ Hi Hp). apply orb_true_r.
Qed.

Lemma lower_not_upper_N c :
  Ascii.eqb (Preview.lower c) (Ascii.ascii_of_nat 78) = false.
Proof.
  destruct c as [[] [] [] [] [] [] [] []]; vm_compute; reflexivity.
Qed.

Lemma toLowerCase_no_upper_N s :
  occurs (Ascii.ascii_of_nat 78) (Preview.toLowerCase s) = false.
Proof.
  induction s as [|c s IH]; cbn [Preview.toLowerCase occurs]; [done|].
  by rewrite lower_not_upper_N, IH.
Qed.

(** X21: the last of the six tests never fires.  The code is put to lower
    case before it is searched for [className=], which has a capital
    letter, so the search fails for every code, and [isRenderable] is the
    disjunction of the other five tests alone. *)
Theorem className_test_never_fires (code : string) :
  includes (Preview.toLowerCase code) "className=" = false
  /\ Preview.isRenderable code
     = (includes (Preview.toLowerCase code) "<!doctype"
        || includes (Preview.toLowerCase code) "<html"
        || includes (Preview.toLowerCase code) "<div"
        || includes (Preview.toLowerCase code) "<svg"
        || includes (Preview.toLowerCase code) "class=").
Proof.
  assert (H : includes (Preview.toLowerCase code) "className=" = false).
  { destruct (includes _ _) eqn:Hi; [|done].
    pose proof (includes_occurs _ _ (Ascii.ascii_of_nat 78) Hi) as Hocc.
    rewrite toLowerCase_no_upper_N in Hocc. symmetry. apply Hocc.
    vm_compute. reflexivity. }
  split; [exact H|]. unfold Preview.isRenderable. rewrite H.
  apply orb_false_r.
Qed.

Lemma settled_mount c : Preview.settled (Preview.mount c).
Proof. split; cbn; done. Qed.

Lemma settled_effect f :
  Preview.settled (Preview.effect f).
Proof.
  unfold Preview.effect. destruct (String.eqb_spec (Preview.code f)
                                     (Preview.debouncedCode f)) as [Heq|Hne];
    split; cbn; try done.
  intros c [= <-]. done.
Qed.

Lemma settled_step f e f' :
  Preview.settled f -> Preview.step f e = Some f' -> Preview.settled f'.
Proof.
  intros Hf. destruct e as [c|]; cbn [Preview.step].
  - intros [= <-]. unfold Preview.setCode.
    destruct (String.eqb c (Preview.code f)); [done|]. apply settled_effect.
  - unfold Preview.fire. destruct (Preview.timer f) as [c|] eqn:Ht; [|done].
    intros [= <-].
    destruct (String.eqb_spec c (Preview.debouncedCode f)); [|apply settled_effect].
    destruct (Preview.settled_timer f Hf c Ht) as (-> & Hne & _). done.
Qed.

Lemma settled_run es : forall f f',
  Preview.settled f -> Preview.run f es = Some f' -> Preview.settled f'.
Proof.
  induction es as [|e es IH]; intros f f' Hf; cbn [Preview.run].
  - by intros [= <-].
  - destruct (Preview.step f e) as [f1|] eqn:Hstep; [|done].
    apply IH. by apply (settled_step f e).
Qed.

(** X22: the frame never shows stale code without a timeout pending, and
    a pending timeout always carries the latest code.  After any changes
    of the code and any timeouts: with no timeout pending the debounced
    code is the code; with one pending, it will commit the current code,
    the updating flag is on, and when it runs the debounced code becomes
    the code and the flag goes off. *)
Theorem debounce_commits_latest_code (c0 : string) (es : list Preview.Event)
    (f : Preview.Frame) :
  Preview.run (Preview.mount c0) es = Some f ->
  (Preview.timer f = None -> Preview.debouncedCode f = Preview.code f)
  /\ (forall c, Preview.timer f = Some c ->
        c = Preview.code f
        /\ Preview.isUpdating f = true
        /\ exists f',
             Preview.step f Preview.Fire = Some f'
             /\ Preview.debouncedCode f' = Preview.code f
             /\ Preview.code f' = Preview.code f
             /\ Preview.isUpdating f' = false
             /\ Preview.timer f' = None).
Proof.
  intros Hrun.
  pose proof (settled_run es _ _ (settled_mount c0) Hrun) as [Hidle Htimer].
  split; [exact Hidle|]. intros c Hc.
  destruct (Htimer c Hc) as (-> & Hne & Hup).
  split; [done|]. split; [done|].
  cbn [Preview.step]. unfold Preview.fire. rewrite Hc.
  destruct (String.eqb_spec (Preview.code f) (Preview.debouncedCode f));
    [done|].
  eexists. split; [reflexivity|]. unfold Preview.effect. cbn.
  by rewrite String.eqb_refl.
Qed.

(** X23: a change of the code that is taken back before the timeout runs
    leaves the updating flag on for good.  The cleanup clears the
    timeout, the effect finds the code equal to the debounced code and
    returns before it touches the flag: the frame is up to date, nothing
    is pending, and the flag stays on until the code changes again. *)
Theorem updating_flag_sticks (f : Preview.Frame) (b : string) :
  Preview.timer f = None ->
  Preview.debouncedCode f = Preview.code f ->
  b <> Preview.code f ->
  exists f',
    Preview.run f [Preview.SetCode b; Preview.SetCode (Preview.code f)]
    = Some f'
    /\ Preview.isUpdating f' = true
    /\ Preview.timer f' = None
    /\ Preview.debouncedCode f' = Preview.code f'
    /\ Preview.step f' Preview.Fire = None
    /\ Preview.step f' (Preview.SetCode (Preview.code f')) = Some f'.
Proof.
  intros Ht Hd Hb. cbn [Preview.run Preview.step].
  unfold Preview.setCode at 2. rewrite (proj2 (String.eqb_neq _ _) Hb).
  unfold Preview.effect at 1. cbn [Preview.code Preview.debouncedCode].
  rewrite Hd, (proj2 (String.eqb_neq _ _) Hb).
  unfold Preview.setCode. cbn [Preview.code Preview.debouncedCode].
  assert (Hb' : String.eqb (Preview.code f) b = false).
  { apply String.eqb_neq. congruence. }
  rewrite Hb'. unfold Preview.effect. cbn. rewrite String.eqb_refl.
  eexists. split; [reflexivity|]. cbn. rewrite String.eqb_refl. done.
Qed.

(** X24: once the frame has caught up with the code, the test for
    renderable code decides nothing: the placeholder is shown for the
    empty code and for no other, and any code that is not empty, markup
    or not, is put into the frame. *)
Theorem placeholder_only_for_empty_code (c0 : string)
    (es : list Preview.Event) (f : Preview.Frame) :
  Preview.run (Preview.mount c0) es = Some f ->
  Preview.timer f = None ->
  (Preview.showsPlaceholder f = true <-> Preview.code f = EmptyString).
Proof.
  intros Hrun Ht.
  pose proof (settled_run es _ _ (settled_mount c0) Hrun) as [Hidle _].
  unfold Preview.showsPlaceholder. rewrite (Hidle Ht). split.
  - intros [_ He]%andb_true_iff. by apply String.eqb_eq.
  - intros ->. vm_compute. reflexivity.
Qed.




(** * Properties of the studio panel *)

Lemma firstInline_skips before : forall part after,
  Forall (fun p => Studio.inlineData p = None) before ->
  Studio.firstInline (before ++ part :: after)
  = match Studio.inlineData part with
    | Some data => Some data
    | None => Studio.firstInline after
    end.
Proof.
  induction before as [|p before IH]; intros part after Hnone;
    cbn [List.app Studio.firstInline]; [done|].
  inversion Hnone as [|? ? Hp Hrest]; subst. rewrite Hp. by apply IH.
Qed.

Lemma firstInline_none parts :
  Forall (fun p => Studio.inlineData p = None) parts ->
  Studio.firstInline parts = None.
Proof.
  induction 1 as [|p parts Hp _ IH]; cbn [Studio.firstInline]; [done|].
  by rewrite Hp.
Qed.

(** X26: of the parts of a response the first that has inline data gives
    the picture, whatever comes after it; the result is its data as a PNG
    data URL, no error is shown and the panel is no longer generating. *)
Theorem first_image_wins (s : Studio.State) (before after : list Studio.Part)
    (data : option string) :
  Forall (fun p => Studio.inlineData p = None) before ->
  let parts := before ++ Studio.mkPart (Some data) :: after in
  let s' := Studio.settle (Studio.Parts (Some parts)) s in
  Studio.resultUrl s' = Some (Studio.pngUrl data)
  /\ Studio.error s' = Studio.error s
  /\ Studio.isGenerating s' = false.
Proof.
  intros Hnone parts s'. subst parts s'. unfold Studio.settle.
  rewrite firstInline_skips by done. done.
Qed.

(** X27: a generation whose response has parts but no picture among them
    ends without a word: the picture of an earlier generation stays on
    display, no error is shown, and the panel is no longer generating. *)
Theorem response_without_picture_is_silent (trim : string -> string)
    (s s1 : Studio.State) (req : Studio.Request) (parts : list Studio.Part) :
  Studio.generateImage trim s = Some (s1, req) ->
  Forall (fun p => Studio.inlineData p = None) parts ->
  let s' := Studio.settle (Studio.Parts (Some parts)) s1 in
  Studio.resultUrl s' = Studio.resultUrl s
  /\ Studio.error s' = None
  /\ Studio.isGenerating s' = false.
Proof.
  unfold Studio.generateImage.
  destruct (String.eqb _ _); [done|]. intros Hgen Hnone.
  injection Hgen as <- _. cbv zeta.
  unfold Studio.settle. by rewrite firstInline_none.
Qed.

(** * Code and view in src/App.tsx *)

Lemma codeInView_refl p : codeInView p p.
Proof. by left. Qed.

Lemma codeInView_trans p1 p2 p3 :
  codeInView p1 p2 -> codeInView p2 p3 -> codeInView p1 p3.
Proof.
  unfold codeInView. intros [[Hc1 Hv1]|Hv1] [[Hc2 Hv2]|Hv2]; auto.
  - left. split; congruence.
  - right. congruence.
Qed.

Lemma toolLoop_shown fcs : forall w,
  currentCode (app (toolLoop fcs w)) = currentCode (app w)
  /\ view (app (toolLoop fcs w)) = view (app w).
Proof.
  induction fcs as [|fc rest IH]; intros w; cbn [toolLoop]; [done|].
  case_bool_decide; [|apply IH]. by destruct (fc_args fc).
Qed.

Lemma afterAudio_shown message w :
  currentCode (app (afterAudio message w)) = currentCode (app w)
  /\ view (app (afterAudio message w)) = view (app w).
Proof.
  unfold afterAudio.
  repeat match goal with
         | |- context [match ?x with _ => _ end] => destruct x
         end;
    rewrite ?(proj1 (toolLoop_shown _ _)), ?(proj2 (toolLoop_shown _ _));
    done.
Qed.

Lemma step_codeInView w e w' :
  step w e = Some w' -> codeInView (app w) (app w').
Proof.
  destruct e; cbn [step]; intros Hstep;
    repeat match type of Hstep with
           | match ?x with _ => _ end = _ => destruct x; try discriminate
           end;
    injection Hstep as <-.
  - left. unfold startSession. by destruct media, resumed.
  - left. destruct (stopSession_keeps w) as (_ & _ & _ & _ & _ & _ & _ & ->).
    done.
  - by left.
  - by left.
  - by left.
  - left. unfold handleMessage.
    destruct (audioData message) as [audio|]; [|done].
    destruct (truthy audio); [|apply afterAudio_shown].
    destruct (outAudioContextRef w); [done|apply afterAudio_shown].
  - left. unfold resumeDecode. destruct r; [|done].
    destruct (afterAudio_shown message
                (add_source (fresh (finish task w))
                   (set_nextStartTime
                      (nextStartTimeRef
                         (emit (SourceStart (fresh (finish task w)) ctx
                                  (nextStartTimeRef (alloc 1 (finish task w)))
                                  (duration a))
                            (alloc 1 (finish task w))) + duration a)%Z
                      (emit (SourceStart (fresh (finish task w)) ctx
                               (nextStartTimeRef (alloc 1 (finish task w)))
                               (duration a))
                         (alloc 1 (finish task w)))))) as [-> ->].
    done.
  - unfold resumeGenerate. destruct r as [response|].
    + right. fields. destruct (sessionPromiseRef w); [done|].
      by rewrite (proj2 (toolLoop_shown _ _)).
    + left. by rewrite (proj1 (toolLoop_shown _ _)), (proj2 (toolLoop_shown _ _)).
  - left. change (toolLoop rest ?x) with (toolLoop rest x).
    match goal with
    | |- context [toolLoop rest ?x] =>
        rewrite (proj1 (toolLoop_shown rest x)), (proj2 (toolLoop_shown rest x))
    end. done.
  - left.
    match goal with
    | |- context [toolLoop rest ?x] =>
        rewrite (proj1 (toolLoop_shown rest x)), (proj2 (toolLoop_shown rest x))
    end. done.
  - left. unfold onaudioprocess.
    by repeat match goal with
              | |- context [match ?x with _ => _ end] => destruct x
              end.
Qed.

(** X28: the code on display never changes under another view.  Every
    turn of the session that changes [currentCode] also brings up the code
    view, and so does the click on a recent build; the preview frame
    therefore never sees its code change while it is mounted. *)
Theorem code_change_brings_up_code_view (w w' : World) (e : Event)
    (item : CodeSnippet) :
  step w e = Some w' ->
  (currentCode (app w') <> currentCode (app w) -> view (app w') = ViewCode)
  /\ view (selectSnippet item (app w')) = ViewCode
  /\ currentCode (selectSnippet item (app w')) = cs_code item.
Proof.
  intros Hstep. split; [|done].
  destruct (step_codeInView w e w' Hstep) as [[Hc _]|Hv]; done.
Qed.

(** ** The further properties at concrete inputs *)

Lemma other_calls_ignored_witness :
  handleMessage (toolMessage [otherCall]) 0 liveWorld = liveWorld.
Proof.
  apply (other_calls_ignored [otherCall] 0 liveWorld).
  constructor; [discriminate|constructor].
Defined.

Lemma argless_call_drops_the_rest_witness :
  handleMessage (toolMessage ([otherCall] ++ arglessCall :: [sortCall])) 0
    liveWorld
  = liveWorld.
Proof.
  apply (argless_call_drops_the_rest [otherCall] [sortCall] arglessCall 0
           liveWorld).
  - constructor; [discriminate|constructor].
  - reflexivity.
  - reflexivity.
Defined.

Lemma calls_served_in_turn_witness :
  exists w',
    run liveWorld
      (Message (toolMessage [reverseCall; otherCall; sortCall]) 0
         :: serveEvents (fresh liveWorld)
              [(reverseResponse, 1700000000000, 1700000000001)%Z;
               (sortResponse, 1700000000002, 1700000000003)%Z]) = Some w'
    /\ toolResponses (trace w')
       = toolResponses (trace liveWorld)
         ++ ((fun job => (3, compiledResponse job.1))
               <$> dispatched [reverseCall; otherCall; sortCall]).
Proof.
  destruct (calls_served_in_turn [reverseCall; otherCall; sortCall]
              [(reverseResponse, 1700000000000, 1700000000001)%Z;
               (sortResponse, 1700000000002, 1700000000003)%Z]
              0 liveWorld 3) as (w' & H1 & _ & H2).
  - reflexivity.
  - vm_compute. reflexivity.
  - reflexivity.
  - exists w'. split; [exact H1|exact H2].
Defined.

Lemma decode_failure_drops_message_witness :
  exists w',
    run liveWorld [Message fullMessage 0; Decoded (fresh liveWorld) Throw]
    = Some w'
    /\ app w' = app liveWorld
    /\ trace w' = trace liveWorld.
Proof.
  destruct (decode_failure_drops_message liveWorld 2 fullMessage 0)
    as (w' & H1 & H2 & H3 & _).
  - reflexivity.
  - reflexivity.
  - exists w'. split; [exact H1|]. split; [exact H2|exact H3].
Defined.

Lemma scheduling_goes_on_after_stop_witness :
  exists w',
    run liveWorld
      [ClickStop;
       Message (arr_message (chunkAt 0)) (arr_now (chunkAt 0));
       Decoded (fresh liveWorld) (Normal (arr_buffer (chunkAt 0)))] = Some w'
    /\ In (ContextClose 2) (teardownEffects liveWorld)
    /\ sourcesRef w' = {[S (fresh liveWorld)]} ∪ sourcesRef liveWorld.
Proof.
  destruct (scheduling_goes_on_after_stop liveWorld 2 (chunkAt 0))
    as (w' & H1 & H2 & _ & _ & H3).
  - reflexivity.
  - reflexivity.
  - exists w'. split; [exact H1|]. split; [exact H2|exact H3].
Defined.

Lemma remote_close_keeps_capturing_witness :
  exists w',
    run liveWorld [Closed; AudioProcess 4 "AAAA"] = Some w'
    /\ isListening (app w') = false
    /\ trace w' = trace liveWorld ++ [SendRealtimeInput 3 "AAAA"].
Proof.
  destruct (remote_close_keeps_capturing liveWorld 4 3 "AAAA")
    as (w' & H1 & H2 & H3 & _).
  - vm_compute. reflexivity.
  - vm_compute. reflexivity.
  - exists w'. split; [exact H1|]. split; [exact H2|exact H3].
Defined.

Lemma rejected_session_reports_overload_witness :
  exists w',
    run rejectedWorld
      [Message (toolMessage [reverseCall]) 0;
       Generated (fresh rejectedWorld) (Normal reverseResponse)
         1700000000000 1700000000001;
       SessionSettled (S (fresh rejectedWorld))] = Some w'
    /\ toolResponses (trace w') = toolResponses (trace rejectedWorld)
    /\ error (app w') = Some "Kernel overload".
Proof.
  destruct (rejected_session_reports_overload rejectedWorld reverseCall
              {| description := "reverse a string"; language := "python" |}
              3 reverseResponse 0 1700000000000 1700000000001)
    as (w' & H1 & H2 & _ & _ & H3 & _).
  - reflexivity.
  - reflexivity.
  - reflexivity.
  - vm_compute. reflexivity.
  - exists w'. split; [exact H1|]. split; [exact H2|exact H3].
Defined.

Lemma overlapping_jobs_share_the_state_witness :
  exists w',
    run liveWorld
      [Message (toolMessage [reverseCall]) 0;
       Message (toolMessage [sortCall]) 100;
       Generated (fresh liveWorld) (Normal reverseResponse)
         1700000000000 1700000000001] = Some w'
    /\ currentCode (app w')
       = orDefault (responseText reverseResponse) "// Synthesis failed"
    /\ currentDescription (app w') = "sort a list".
Proof.
  destruct (overlapping_jobs_share_the_state liveWorld reverseCall sortCall
              {| description := "reverse a string"; language := "python" |}
              {| description := "sort a list"; language := "python" |}
              reverseResponse 0 100 1700000000000 1700000000001)
    as (w' & H1 & H2 & H3 & _).
  - reflexivity.
  - reflexivity.
  - reflexivity.
  - reflexivity.
  - exists w'. split; [exact H1|]. split; [exact H2|exact H3].
Defined.

Lemma sources_pile_up_witness :
  size (sourcesRef playingWorld) = length (schedule (trace playingWorld)).
Proof.
  apply (sources_pile_up playingRun playingWorld).
  vm_compute. reflexivity.
Defined.

Lemma every_response_says_compiled_witness :
  Forall (fun sr => fr_result sr.2 = "Compiled."
                    /\ fr_name sr.2 = Some "generate_code")
    (toolResponses (trace roundTripWorld)).
Proof.
  apply (every_response_says_compiled fullRoundTripRun roundTripWorld).
  vm_compute. reflexivity.
Defined.

Lemma promise_never_cleared_witness :
  exists s,
    sessionPromiseRef liveWorld = Some s /\ is_Some (sessions liveWorld !! s).
Proof.
  apply (promise_never_cleared [ClickStart ok ok; Opened 3] liveWorld).
  - vm_compute. reflexivity.
  - intros Hempty. apply (f_equal (fun m => m !! 3)) in Hempty.
    vm_compute in Hempty. discriminate Hempty.
Defined.

Lemma image_payload_of_data_url_witness :
  Chat.buildContents "what is this?"
    (Some (Chat.dataUrl "image/jpeg" "/9j/4AAQ"))
  = [Chat.ImageContent (Some "/9j/4AAQ") "image/png" "what is this?"].
Proof.
  apply (image_payload_of_data_url "image/jpeg" "/9j/4AAQ" "what is this?").
  - reflexivity.
  - reflexivity.
Defined.

Lemma position_failure_is_silent_witness :
  exists d1 d2,
    Chat.run mapsDesk
      [Chat.Send "cafes nearby" None 1700000000000 1700000000001;
       Chat.Located (Chat.next mapsDesk) Throw] = Some d1
    /\ Chat.run mapsDesk
         [Chat.Send "cafes nearby" None 1700000000000 1700000000001;
          Chat.Located (Chat.next mapsDesk)
            (Normal {| Chat.latitude := 52; Chat.longitude := 13 |})]
       = Some d2
    /\ Chat.state d1 = Chat.state d2
    /\ error (Chat.base (Chat.state d1))
       = error (Chat.base (Chat.state mapsDesk)).
Proof.
  destruct (position_failure_is_silent mapsDesk "cafes nearby" None
              1700000000000 1700000000001
              {| Chat.latitude := 52; Chat.longitude := 13 |})
    as (d1 & d2 & req & H1 & H2 & _ & _ & _ & H3 & _ & H4).
  - reflexivity.
  - exists d1, d2. split; [exact H1|]. split; [exact H2|].
    split; [exact H3|exact H4].
Defined.


Lemma chat_history_only_grows_witness :
  exists more,
    Chat.chatHistory (Chat.state helloDesk)
    = Chat.chatHistory (Chat.state Chat.initialDesk) ++ more
    /\ Chat.userMessages more = Chat.sends helloRun.
Proof.
  apply (chat_history_only_grows helloRun Chat.initialDesk helloDesk).
  vm_compute. reflexivity.
Defined.

Lemma debounce_commits_latest_code_witness :
  Preview.timer changedFrame = Some (Preview.code changedFrame)
  /\ Preview.isUpdating changedFrame = true.
Proof.
  destruct (debounce_commits_latest_code "<div>a</div>"
              [Preview.SetCode "<div>b</div>"] changedFrame) as (_ & H).
  - reflexivity.
  - destruct (H "<div>b</div>") as (H1 & H2 & _); [reflexivity|].
    split; [rewrite <- H1; reflexivity|exact H2].
Defined.

Lemma updating_flag_sticks_witness :
  exists f',
    Preview.run (Preview.mount "<div>a</div>")
      [Preview.SetCode "<div>b</div>";
       Preview.SetCode (Preview.code (Preview.mount "<div>a</div>"))]
    = Some f'
    /\ Preview.isUpdating f' = true
    /\ Preview.timer f' = None.
Proof.
  destruct (updating_flag_sticks (Preview.mount "<div>a</div>")
              "<div>b</div>") as (f' & H1 & H2 & H3 & _).
  - reflexivity.
  - reflexivity.
  - discriminate.
  - exists f'. split; [exact H1|]. split; [exact H2|exact H3].
Defined.

Lemma placeholder_only_for_empty_code_witness :
  Preview.showsPlaceholder settledFrame = true
  <-> Preview.code settledFrame = EmptyString.
Proof.
  apply (placeholder_only_for_empty_code "<div>a</div>"
           [Preview.SetCode "<div>b</div>"; Preview.Fire] settledFrame).
  - reflexivity.
  - reflexivity.
Defined.

Lemma first_image_wins_witness :
  Studio.resultUrl
    (Studio.settle
       (Studio.Parts
          (Some ([Studio.mkPart None]
                 ++ Studio.mkPart (Some (Some "iVBORw0KGgo="))
                 :: [Studio.mkPart (Some (Some "R0lGODlh"))])))
       foxStudio)
  = Some "data:image/png;base64,iVBORw0KGgo=".
Proof.
  destruct (first_image_wins foxStudio [Studio.mkPart None]
              [Studio.mkPart (Some (Some "R0lGODlh"))] (Some "iVBORw0KGgo="))
    as (H & _).
  - constructor; [reflexivity|constructor].
  - exact H.
Defined.

Lemma response_without_picture_is_silent_witness :
  exists s1 req,
    Studio.generateImage (fun s => s) foxStudio = Some (s1, req)
    /\ Studio.error (Studio.settle
                       (Studio.Parts (Some [Studio.mkPart None])) s1) = None
    /\ Studio.resultUrl (Studio.settle
                           (Studio.Parts (Some [Studio.mkPart None])) s1)
       = Studio.resultUrl foxStudio.
Proof.
  exists (Studio.setError None (Studio.setIsGenerating true foxStudio)),
    (Studio.ImageRequest Studio.ModelName_PRO_IMAGE "a red fox" "1:1" "1K").
  destruct (response_without_picture_is_silent (fun s => s) foxStudio
              (Studio.setError None (Studio.setIsGenerating true foxStudio))
              (Studio.ImageRequest Studio.ModelName_PRO_IMAGE "a red fox"
                 "1:1" "1K")
              [Studio.mkPart None]) as (H1 & H2 & _).
  - reflexivity.
  - constructor; [reflexivity|constructor].
  - split; [reflexivity|]. split; [exact H2|exact H1].
Defined.

Lemma code_change_brings_up_code_view_witness :
  exists w',
    step (handleMessage (toolMessage [reverseCall]) 0 liveWorld)
      (Generated 5 (Normal reverseResponse) 1700000000000 1700000000001)
    = Some w'
    /\ currentCode (app w')
       <> currentCode (app (handleMessage (toolMessage [reverseCall]) 0
                              liveWorld))
    /\ view (app w') = ViewCode.
Proof.
  pose (w := handleMessage (toolMessage [reverseCall]) 0 liveWorld).
  pose (w' := default w
                (step w (Generated 5 (Normal reverseResponse)
                           1700000000000 1700000000001))).
  assert (Hstep : step w (Generated 5 (Normal reverseResponse)
                            1700000000000 1700000000001) = Some w')
    by (vm_compute; reflexivity).
  assert (Hcode : currentCode (app w') <> currentCode (app w))
    by (vm_compute; discriminate).
  destruct (code_change_brings_up_code_view w w'
              (Generated 5 (Normal reverseResponse)
                 1700000000000 1700000000001)
              {| cs_id := "1"; cs_code := reverseText;
                 cs_description := "reverse a string";
                 cs_language := "python"; cs_timestamp := 0 |} Hstep)
    as (H & _).
  exists w'. split; [exact Hstep|]. split; [exact Hcode|exact (H Hcode)].
Defined.
